(** * AWB scraper: table extraction and heuristic normalization

    A shallow embedding of the three JavaScript pieces of the repository:

    - [Scraper]: [AWBScraper.parseHTML] (scraper.js), the grid extractor;
    - [Server]: the table selection and the [responseData] envelope of the
      [/api/scrape] handler (server side);
    - [UI]: [parseTableData], [parseDCSCTables] and [parseGMRTables] (App).

    JavaScript strings are sequences of UTF-16 code units, so a string is a
    [list N] and [.length] is the length of that list.  A plain object used
    as a record ([obj[key] = value]) is a [gmap] from strings to strings.
    The cheerio selections ([$('table')], [.find('tr')], [.find('td, th')])
    are the input of the extractor: a document is the list of its table
    elements, each with the rows and cells the selections return.  The two
    clock reads ([new Date()]) are explicit arguments. *)

From Stdlib Require Import NArith Ascii String DecimalString.
From stdpp Require Import strings gmap list sorting.

Local Open Scope N_scope.

(** ** JavaScript strings *)

Abbreviation jsstring := (list N).

(** A string literal of the source, as code units (ASCII literals only). *)
Definition js (s : string) : jsstring :=
  (λ a, N_of_ascii a) <$> list_ascii_of_string s.

(** [`${n}`] for a non-negative integer [n]. *)
Definition decimal (n : nat) : jsstring :=
  js (NilEmpty.string_of_uint (Nat.to_uint n)).

(** WhiteSpace and LineTerminator of ECMAScript: what [trim] strips and
    what [\s] matches. *)
Definition is_white_space (c : N) : bool :=
  (c =? 9) || (c =? 10) || (c =? 11) || (c =? 12) || (c =? 13) || (c =? 32)
  || (c =? 160) || (c =? 5760) || ((8192 <=? c) && (c <=? 8202))
  || (c =? 8232) || (c =? 8233) || (c =? 8239) || (c =? 8287)
  || (c =? 12288) || (c =? 65279).

(** [\d] *)
Definition is_digit (c : N) : bool := (48 <=? c) && (c <=? 57).

(** [\w] (no [i] or [u] flag): [A-Za-z0-9_] *)
Definition is_word (c : N) : bool :=
  ((65 <=? c) && (c <=? 90)) || ((97 <=? c) && (c <=? 122))
  || is_digit c || (c =? 95).

Fixpoint trimStart (s : jsstring) : jsstring :=
  match s with
  | c :: s' => if is_white_space c then trimStart s' else s
  | [] => []
  end.

Definition trimEnd (s : jsstring) : jsstring := reverse (trimStart (reverse s)).

(** [s.trim()] *)
Definition trim (s : jsstring) : jsstring := trimEnd (trimStart s).

(** [s.replace(/\s+/g, sep)]: every maximal run of white space becomes one
    [sep]; [in_run] says that the previous code unit was white space. *)
Fixpoint replace_ws_from (sep : jsstring) (in_run : bool) (s : jsstring) : jsstring :=
  match s with
  | [] => []
  | c :: s' =>
      if is_white_space c
      then (if in_run then [] else sep) ++ replace_ws_from sep true s'
      else c :: replace_ws_from sep false s'
  end.

Definition replace_ws (sep : jsstring) (s : jsstring) : jsstring :=
  replace_ws_from sep false s.

(** [s.startsWith(p)] *)
Fixpoint startsWith (s p : jsstring) {struct p} : bool :=
  match p, s with
  | [], _ => true
  | a :: p', b :: s' => (a =? b) && startsWith s' p'
  | _ :: _, [] => false
  end.

(** [s.includes(p)] *)
Fixpoint includes (s p : jsstring) : bool :=
  startsWith s p ||
  match s with
  | [] => false
  | _ :: s' => includes s' p
  end.

(** A string in a boolean context: the empty string is falsy. *)
Definition truthy (s : jsstring) : bool :=
  match s with [] => false | _ => true end.

(** [/^\d{2}-\w{3}-\d{2}/.test(cell)] *)
Definition date_test (cell : jsstring) : bool :=
  match cell with
  | d1 :: d2 :: h1 :: w1 :: w2 :: w3 :: h2 :: d3 :: d4 :: _ =>
      is_digit d1 && is_digit d2 && (h1 =? 45)
      && is_word w1 && is_word w2 && is_word w3 && (h2 =? 45)
      && is_digit d3 && is_digit d4
  | _ => false
  end.

(** What a call leaves behind: a value, or an exception. *)
Inductive JsError := TypeError.

Inductive outcome (A : Type) :=
  | Returned (a : A)
  | Thrown (e : JsError).
Arguments Returned {A} a.
Arguments Thrown {A} e.

Definition obind {A B} (o : outcome A) (k : A → outcome B) : outcome B :=
  match o with
  | Returned a => k a
  | Thrown e => Thrown e
  end.

(** [xs.map(f)] where [f] may throw: the first exception ends the map. *)
Fixpoint omapM {A B} (f : A → outcome B) (xs : list A) : outcome (list B) :=
  match xs with
  | [] => Returned []
  | x :: xs' =>
      obind (f x) (λ y, obind (omapM f xs') (λ ys, Returned (y :: ys)))
  end.

(** ** scraper.js: the grid extractor *)

Module Scraper.

(** The elements cheerio hands to the callbacks. *)
Inductive CellTag := td | th.

Record CellNode := { cell_name : CellTag; cell_text : jsstring }.
Record RowNode := { row_cells : list CellNode }.
Record TableNode := { attr_id : option jsstring; table_trs : list RowNode }.
Abbreviation Document := (list TableNode).

Record Cell := { text : jsstring; isHeader : bool }.
Record Row := { row_number : nat; cells : list Cell }.
Record Table := {
  table_number : nat;
  table_id : jsstring;
  total_rows : nat;
  rows : list Row
}.
Record Extraction := {
  awb_number : jsstring;
  service : option jsstring;
  extraction_time : jsstring;
  all_tables : list Table
}.

(** [this.serviceOptions[this.serviceOption]] *)
Definition serviceOptions (serviceOption : jsstring) : option jsstring :=
  if decide (serviceOption = js "1") then Some (js "DCSC - Delhi Cargo Service Centre")
  else if decide (serviceOption = js "2") then Some (js "GMR ARGO - Cargo Tracking")
  else None.

Definition is_th (t : CellTag) : bool :=
  match t with th => true | td => false end.

(** The callback over [$(row).find('td, th')]. *)
Fixpoint extract_cells (nodes : list CellNode) : list Cell :=
  match nodes with
  | [] => []
  | cell :: nodes' =>
      let text := trim (cell_text cell) in
      (if truthy text
       then [ {| text := text; isHeader := is_th (cell_name cell) |} ]
       else [])
      ++ extract_cells nodes'
  end.

(** The callback over [$table.find('tr')], from row index [rowIdx]. *)
Fixpoint extract_rows (rowIdx : nat) (trs : list RowNode) : list Row :=
  match trs with
  | [] => []
  | row :: trs' =>
      let cells := extract_cells (row_cells row) in
      (if bool_decide (0 < length cells)%nat
       then [ {| row_number := rowIdx; cells := cells |} ]
       else [])
      ++ extract_rows (S rowIdx) trs'
  end.

(** [$table.attr('id') || `table_${tableIndex}`] *)
Definition tableId (attr : option jsstring) (tableIndex : nat) : jsstring :=
  match attr with
  | Some i => if truthy i then i else js "table_" ++ decimal tableIndex
  | None => js "table_" ++ decimal tableIndex
  end.

(** The callback over [$('table')]; [tableIndex] counts the tables kept. *)
Fixpoint extract_tables (tableIndex : nat) (tables : list TableNode) : list Table :=
  match tables with
  | [] => []
  | table :: tables' =>
      let rows := extract_rows 0 (table_trs table) in
      if bool_decide (0 < length rows)%nat
      then {| table_number := tableIndex;
              table_id := tableId (attr_id table) tableIndex;
              total_rows := length rows;
              rows := rows |}
           :: extract_tables (S tableIndex) tables'
      else extract_tables tableIndex tables'
  end.

(** [parseHTML] of a scraper built with [awbNumber] and [serviceOption],
    on the document cheerio loaded, at clock reading [now_iso]. *)
Definition parseHTML (awbNumber serviceOption : jsstring) (now_iso : jsstring)
    (doc : Document) : Extraction :=
  {| awb_number := trim awbNumber;
     service := serviceOptions serviceOption;
     extraction_time := now_iso;
     all_tables := extract_tables 0 doc |}.

End Scraper.

(** ** The envelope exchanged between the server and the UI

    [responseData] on the server, [rawData] in the UI, and (with other
    tables) what the two normalizers return through [{...rawData, ...}]. *)

Record Envelope (T : Type) := {
  awb_number : jsstring;
  service_name : option jsstring;
  service_code : jsstring;
  extraction_time : jsstring;
  total_tables : nat;
  tables : list T
}.
Arguments awb_number {T} _.
Arguments service_name {T} _.
Arguments service_code {T} _.
Arguments extraction_time {T} _.
Arguments total_tables {T} _.
Arguments tables {T} _.

(** A row on the wire: the texts of its cells. *)
Abbreviation row := (list (list N)).

(** A record ([const obj = {}] and [obj[key] = value]). *)
Abbreviation record := (gmap (list N) (list N)).

(** [obj[key] = value] for a string [value], on an object made by [{}]: an
    own property is written, unless the key is "__proto__", which reaches
    the setter of [Object.prototype]; that setter ignores a value that is
    not an object and leaves [obj] without such a key. *)
Definition obj_set (key value : jsstring) (obj : record) : record :=
  if decide (key = js "__proto__") then obj else <[ key := value ]> obj.

(** [header || `Column ${j + 1}`] *)
Definition headerKey (header : jsstring) (j : nat) : jsstring :=
  if truthy header then header else js "Column " ++ decimal (j + 1).

(** [h => h.trim().replace(/\s+/g, ' ')] *)
Definition cleanHeader (h : jsstring) : jsstring := replace_ws (js " ") (trim h).

(** ** The /api/scrape handler: table selection and [responseData] *)

Module Server.

Record RawTable := {
  table_id : jsstring;
  table_number : nat;
  total_rows : nat;
  rows : list row
}.

(** [service === 'gmr' ? '2' : '1'] *)
Definition serviceOption (service : jsstring) : jsstring :=
  if decide (service = js "gmr") then js "2" else js "1".

(** The filter of the useful tables. *)
Definition usefulTables (serviceOption : jsstring)
    (all_tables : list Scraper.Table) : list Scraper.Table :=
  if decide (serviceOption = js "2")
  then filter (λ table,
                 startsWith (Scraper.table_id table) (js "Grid")
                 || startsWith (Scraper.table_id table) (js "grd"))
              all_tables
  else match all_tables with
       | first :: _ => [first]
       | [] => []
       end.

Definition rawTable (idx : nat) (table : Scraper.Table) : RawTable :=
  {| table_id := Scraper.table_id table;
     table_number := idx + 1;
     total_rows := length (Scraper.rows table);
     rows := (λ r, Scraper.text <$> Scraper.cells r) <$> Scraper.rows table |}.

(** [responseData], at clock reading [now_locale]. *)
Definition responseData (serviceOption : jsstring) (now_locale : jsstring)
    (data : Scraper.Extraction) : Envelope RawTable :=
  let usefulTables := usefulTables serviceOption (Scraper.all_tables data) in
  {| awb_number := Scraper.awb_number data;
     service_name := Scraper.service data;
     service_code := serviceOption;
     extraction_time := now_locale;
     total_tables := length usefulTables;
     tables := imap rawTable usefulTables |}.

End Server.

(** ** App: [parseDCSCTables] *)

Module DCSC.

(** [currentSection] *)
Record SectionAcc := {
  section_title : jsstring;
  table_id : jsstring;
  data : list record
}.

(** A table of the returned envelope. *)
Record SectionTable := {
  out_table_id : jsstring;
  out_table_number : nat;
  out_section_title : jsstring;
  out_data : list record;
  out_total_rows : nat
}.

(** The variables of the loop over the rows of one table, with the
    [allSections] of the enclosing function. *)
Record ScanState := {
  allSections : list SectionAcc;
  currentSection : option SectionAcc;
  currentHeaders : list jsstring
}.

(** [row.length === 1 && row[0].includes('DETAILS')], with [row[0]]. *)
Definition section_marker (r : row) : option jsstring :=
  match r with
  | [cell] => if includes cell (js "DETAILS") then Some cell else None
  | _ => None
  end.

(** [if (currentSection && currentSection.data.length > 0)
      allSections.push(currentSection)] *)
Definition push_section (all : list SectionAcc) (cur : option SectionAcc)
    : list SectionAcc :=
  match cur with
  | Some s => if bool_decide (0 < length (data s))%nat then all ++ [s] else all
  | None => all
  end.

Definition looksLikeHeader (r : row) : bool :=
  bool_decide (1 < length r)%nat
  && bool_decide (length r < 20)%nat
  && forallb (λ cell, bool_decide (0 < length cell)%nat
                      && bool_decide (length cell < 50)%nat) r
  && negb (existsb date_test r).

(** [currentHeaders.forEach((header, j) => { obj[...] = row[j] || '' })],
    from index [j]. *)
Fixpoint fill_record (j : nat) (headers : list jsstring) (r : row)
    (obj : record) : record :=
  match headers with
  | [] => obj
  | header :: headers' =>
      fill_record (S j) headers' r
        (obj_set (headerKey header j) (default [] (r !! j)) obj)
  end.

Section WithRuntime.

(** [String.prototype.toLowerCase], the runtime's Unicode case mapping. *)
Variable toLowerCase : jsstring → jsstring.

(** One turn of the loop over the rows. *)
Definition step (st : ScanState) (r : row) : ScanState :=
  match section_marker r with
  | Some cell =>
      {| allSections := push_section (allSections st) (currentSection st);
         currentSection :=
           Some {| section_title := trim cell;
                   table_id := replace_ws (js "_") (toLowerCase cell);
                   data := [] |};
         currentHeaders := [] |}
  | None =>
      match currentSection st with
      | None => st
      | Some sec =>
          if bool_decide (length r = 0)%nat then st
          else if looksLikeHeader r
                  && bool_decide (length (currentHeaders st) = 0)%nat
          then {| allSections := allSections st;
                  currentSection := currentSection st;
                  currentHeaders := cleanHeader <$> r |}
          else if bool_decide (0 < length (currentHeaders st))%nat
                  && bool_decide (length r = length (currentHeaders st))
          then {| allSections := allSections st;
                  currentSection :=
                    Some {| section_title := section_title sec;
                            table_id := table_id sec;
                            data := data sec
                                    ++ [fill_record 0 (currentHeaders st) r ∅] |};
                  currentHeaders := currentHeaders st |}
          else st
      end
  end.

(** The body of [rawData.tables.forEach]: the loop, then the last push. *)
Definition scan_table (all : list SectionAcc) (rs : list row) : list SectionAcc :=
  let st := foldl step {| allSections := all;
                          currentSection := None;
                          currentHeaders := [] |} rs in
  push_section (allSections st) (currentSection st).

Definition sectionTable (idx : nat) (s : SectionAcc) : SectionTable :=
  {| out_table_id := table_id s;
     out_table_number := idx + 1;
     out_section_title := section_title s;
     out_data := data s;
     out_total_rows := length (data s) |}.

Definition parseDCSCTables (rawData : Envelope Server.RawTable)
    : Envelope SectionTable :=
  let allSections :=
    foldl (λ all table, scan_table all (Server.rows table)) [] (tables rawData) in
  {| awb_number := awb_number rawData;
     service_name := service_name rawData;
     service_code := service_code rawData;
     extraction_time := extraction_time rawData;
     total_tables := length allSections;
     tables := imap sectionTable allSections |}.

End WithRuntime.

End DCSC.

(** ** App: [parseGMRTables] *)

Module GMR.

Record RecordTable := {
  table_id : jsstring;
  table_number : nat;
  data : list record;
  total_rows : nat
}.

(** [rows[i].length > 1 && rows[i].every(cell => cell.length < 100)] *)
Definition header_test (r : row) : bool :=
  bool_decide (1 < length r)%nat
  && forallb (λ cell, bool_decide (length cell < 100)%nat) r.

(** The loop that finds the header row, from index [i] over the rows not
    yet seen; [headerRowIndex] keeps its initial 0 when the loop ends
    without a [break]. *)
Fixpoint headerRowIndex_from (i : nat) (rs : list row) : nat :=
  match rs with
  | [] => 0
  | r :: rs' => if header_test r then i else headerRowIndex_from (S i) rs'
  end.

Definition headerRowIndex (rs : list row) : nat := headerRowIndex_from 0 rs.

(** [headers.forEach((header, i) => { if (header && row[i] !== undefined)
      obj[header || `Column ${i + 1}`] = row[i] || '' })], from index [i]. *)
Fixpoint fill_record (i : nat) (headers : list jsstring) (r : row)
    (obj : record) : record :=
  match headers with
  | [] => obj
  | header :: headers' =>
      fill_record (S i) headers' r
        (if truthy header
         then match r !! i with
              | Some v => obj_set (headerKey header i) v obj
              | None => obj
              end
         else obj)
  end.

Definition cleanData (headers : list jsstring) (dataRows : list row) : list record :=
  (λ r, fill_record 0 headers r ∅) <$> dataRows.

(** The callback of [rawData.tables.map]; [rows[headerRowIndex].map] throws
    when [rows[headerRowIndex]] is undefined. *)
Definition parseTable (table : Server.RawTable) : outcome RecordTable :=
  let rows := Server.rows table in
  match rows !! headerRowIndex rows with
  | None => Thrown TypeError
  | Some hrow =>
      let headers := cleanHeader <$> hrow in
      let dataRows := drop (headerRowIndex rows + 1) rows in
      let cleanData := cleanData headers dataRows in
      Returned {| table_id := Server.table_id table;
                  table_number := Server.table_number table;
                  data := cleanData;
                  total_rows := length cleanData |}
  end.

Definition parseGMRTables (rawData : Envelope Server.RawTable)
    : outcome (Envelope RecordTable) :=
  obind (omapM parseTable (tables rawData)) (λ ts,
    Returned {| awb_number := awb_number rawData;
                service_name := service_name rawData;
                service_code := service_code rawData;
                extraction_time := extraction_time rawData;
                total_tables := total_tables rawData;
                tables := ts |}).

End GMR.

(** ** App: [parseTableData] *)

Inductive Parsed :=
  | Sections (e : Envelope DCSC.SectionTable)
  | Records (e : Envelope GMR.RecordTable)
  | Unparsed (e : Envelope Server.RawTable).

Definition parseTableData (toLowerCase : jsstring → jsstring)
    (rawData : Envelope Server.RawTable) : outcome Parsed :=
  let serviceCode := service_code rawData in
  if decide (serviceCode = js "1")
  then Returned (Sections (DCSC.parseDCSCTables toLowerCase rawData))
  else if decide (serviceCode = js "2")
  then obind (GMR.parseGMRTables rawData) (λ e, Returned (Records e))
  else Returned (Unparsed rawData).

(** Extraction, the server's envelope and the UI's normalization in a row,
    for a request [(service, awbNumber)] whose page cheerio loaded as [doc].
    The replies the handler sends before it builds the envelope (400 without
    an AWB number, 500 when the fetch failed, 404 for source "1" when no
    table was extracted and the serialized extraction holds "No Data Found")
    are not part of it. *)
Definition scrape_and_parse (toLowerCase : jsstring → jsstring)
    (service awbNumber : jsstring) (now_iso now_locale : jsstring)
    (doc : Scraper.Document) : outcome Parsed :=
  let serviceOption := Server.serviceOption service in
  let data := Scraper.parseHTML awbNumber serviceOption now_iso doc in
  parseTableData toLowerCase (Server.responseData serviceOption now_locale data).

(** [toLowerCase] on strings of ASCII code units. *)
Definition ascii_toLowerCase (s : jsstring) : jsstring :=
  (λ c, if (65 <=? c) && (c <=? 90) then c + 32 else c) <$> s.

(** ** scraper.js: the AWB number and the request *)

Module Fetch.

Record AwbParts := { prefix : jsstring; number : jsstring }.

(** [splitAwbNumber]; [awb.replace(/[^0-9]/g, '')] keeps the digits. *)
Definition splitAwbNumber (awb : jsstring) : AwbParts :=
  let cleanAwb := filter (λ c, is_digit c) awb in
  if bool_decide (4 ≤ length cleanAwb)%nat
  then {| prefix := take 3 cleanAwb; number := drop 3 cleanAwb |}
  else {| prefix := []; number := cleanAwb |}.

(** [this.baseUrls[this.serviceOption]] *)
Definition baseUrls (serviceOption : jsstring) : option jsstring :=
  if decide (serviceOption = js "1")
  then Some (js "https://dcsc.in:7002/DCSC_webportal/GetAWBExportTracking.do")
  else if decide (serviceOption = js "2")
  then Some (js "https://international.gmrgroup.in/TrackAndTrace/CARGO/CargoTrackingdetailBeforeLogin.aspx")
  else None.

(** What [fetchHTML] asks axios for: a POST of the form fields appended to
    [formData], or a GET. *)
Inductive Request :=
  | Post (url : jsstring) (formData : list (jsstring * jsstring))
  | Get (url : jsstring).

(** The request of [fetchHTML], for a scraper built with [awbNumber] and
    [serviceOption]; with a service option other than '1' and '2' it sends
    none and returns undefined. *)
Definition request (awbNumber serviceOption : jsstring) : option Request :=
  let this_awbNumber := trim awbNumber in
  baseUrls serviceOption ≫= λ baseUrl,
    if decide (serviceOption = js "1")
    then
      let parts := splitAwbNumber this_awbNumber in
      Some (Post baseUrl [(js "awbpfx", prefix parts);
                          (js "cod_awb_num", number parts)])
    else if decide (serviceOption = js "2")
    then
      let parts := splitAwbNumber this_awbNumber in
      Some (Get (baseUrl ++ js "?awbpfx=" ++ prefix parts
                 ++ js "&cod_awb_num=" ++ number parts
                 ++ js "&pageno=0&VTSrno=0&totVT=0"))
    else None.

End Fetch.

(** The [url] the /api/scrape handler reports beside the envelope. *)
Definition response_url (serviceOption awbNumber : jsstring) : jsstring :=
  if decide (serviceOption = js "2")
  then
    let parts := Fetch.splitAwbNumber awbNumber in
    js "https://international.gmrgroup.in/TrackAndTrace/CARGO/CargoTrackingdetailBeforeLogin.aspx?awbpfx="
    ++ Fetch.prefix parts ++ js "&cod_awb_num=" ++ Fetch.number parts
    ++ js "&pageno=0&VTSrno=0&totVT=0"
  else
    let parts := Fetch.splitAwbNumber awbNumber in
    js "https://dcsc.in:7002/DCSC_webportal/GetAWBExportTracking.do (POST: awbpfx="
    ++ Fetch.prefix parts ++ js ", cod_awb_num=" ++ Fetch.number parts ++ js ")".

(** ** Notions used in the statements *)

(** A string that does not start with white space. *)
Definition starts_clean (s : jsstring) : Prop :=
  match s with
  | c :: _ => is_white_space c = false
  | [] => True
  end.

(** What the extractor promises about one table: it has a row, its
    [total_rows] counts them, every row has a cell, and no cell's text is
    empty, also after another [trim]. *)
Definition cell_ok (c : Scraper.Cell) : Prop :=
  Scraper.text c ≠ [] ∧ trim (Scraper.text c) ≠ [].

Definition row_ok (r : Scraper.Row) : Prop :=
  Scraper.cells r ≠ [] ∧ Forall cell_ok (Scraper.cells r).

Definition table_ok (t : Scraper.Table) : Prop :=
  Scraper.rows t ≠ []
  ∧ Scraper.total_rows t = length (Scraper.rows t)
  ∧ Forall row_ok (Scraper.rows t).

(** Source B: a row that looks like a header has more than one cell, each
    shorter than 100 code units. *)
Definition header_shaped (r : row) : Prop :=
  (1 < length r)%nat ∧ Forall (λ cell : jsstring, (length cell < 100)%nat) r.

(** [h] is the index of the first header-shaped row of [rs], or 0 when no
    row of [rs] is header-shaped. *)
Definition first_header_shaped (rs : list row) (h : nat) : Prop :=
  (∃ r, rs !! h = Some r ∧ header_shaped r
        ∧ ∀ j r', (j < h)%nat → rs !! j = Some r' → ¬ header_shaped r')
  ∨ (h = 0%nat ∧ Forall (λ r, ¬ header_shaped r) rs).

(** [rec] maps the header names to the cells of [r] by position: a key of
    [rec] is a header name at a position where [r] has a cell, and its value
    is a cell of [r] under that name; when the names are pairwise distinct,
    every non-empty name over a cell of [r] is a key, with that cell (the
    name "__proto__" apart, which no record gets as a key). *)
Definition positional (headers : list jsstring) (r : row) (rec : record) : Prop :=
  (∀ key v, rec !! key = Some v →
     ∃ i : nat, headers !! i = Some key ∧ r !! i = Some v)
  ∧ (NoDup headers →
     ∀ (i : nat) header v, headers !! i = Some header → header ≠ [] →
       header ≠ js "__proto__" →
       r !! i = Some v → rec !! header = Some v).

(** Source A: the section-start events of a table.  [split_at_markers rs]
    is the rows before the first section-start row, and then one entry per
    section-start row in order: the marker cell and the rows that follow it
    up to the next section-start row or the end of the table. *)
Fixpoint split_at_markers (rs : list row) : list row * list (jsstring * list row) :=
  match rs with
  | [] => ([], [])
  | r :: rs' =>
      let '(body, events) := split_at_markers rs' in
      match DCSC.section_marker r with
      | Some cell => ([], (cell, body) :: events)
      | None => (r :: body, events)
      end
  end.

Definition section_starts (rs : list row) : list (jsstring * list row) :=
  (split_at_markers rs).2.

(** The section a section-start row opens, before any row is added. *)
Definition opened (toLowerCase : jsstring → jsstring) (cell : jsstring)
    : DCSC.SectionAcc :=
  {| DCSC.section_title := trim cell;
     DCSC.table_id := replace_ws (js "_") (toLowerCase cell);
     DCSC.data := [] |}.

(** The section of a section-start event as it stands at the next
    section-start row or at the end of the table: the loop run over the
    rows of the event, from the section just opened and no header. *)
Definition accumulated (toLowerCase : jsstring → jsstring)
    (event : jsstring * list row) : DCSC.SectionAcc :=
  default (opened toLowerCase event.1)
    (DCSC.currentSection
       (foldl (DCSC.step toLowerCase)
              {| DCSC.allSections := [];
                 DCSC.currentSection := Some (opened toLowerCase event.1);
                 DCSC.currentHeaders := [] |}
              event.2)).

(** The current section, when it is emitted: only with a record in it. *)
Definition emitted (cur : option DCSC.SectionAcc) : list DCSC.SectionAcc :=
  match cur with
  | Some s => if decide (DCSC.data s ≠ []) then [s] else []
  | None => []
  end.

(** The character classes and the shape the date test looks for at the
    start of a cell: two digits, a hyphen, three word characters, a hyphen,
    two digits. *)
Definition digit (c : N) : Prop := 48 ≤ c ≤ 57.
Definition letter (c : N) : Prop := 65 ≤ c ≤ 90 ∨ 97 ≤ c ≤ 122.
Definition word_char (c : N) : Prop := letter c ∨ digit c ∨ c = 95.

Definition starts_with_date (cell : jsstring) : Prop :=
  ∃ d1 d2 w1 w2 w3 d3 d4 rest,
    cell = d1 :: d2 :: 45 :: w1 :: w2 :: w3 :: 45 :: d3 :: d4 :: rest
    ∧ digit d1 ∧ digit d2
    ∧ word_char w1 ∧ word_char w2 ∧ word_char w3
    ∧ digit d3 ∧ digit d4.

(** Source A: a header candidate. *)
Definition header_candidate (r : row) : Prop :=
  (1 < length r < 20)%nat
  ∧ Forall (λ cell : jsstring, (0 < length cell < 50)%nat) r
  ∧ Forall (λ cell, ¬ starts_with_date cell) r.

(** The header candidate in the words of the specification, where the date
    is two digits, a hyphen, three letters, a hyphen and two digits; a cell
    matches when the date stands anywhere in it, the reading under which
    the most cells match. *)
Definition is_letter (c : N) : bool :=
  ((65 <=? c) && (c <=? 90)) || ((97 <=? c) && (c <=? 122)).

Definition spec_date_at (cell : jsstring) : bool :=
  match cell with
  | d1 :: d2 :: h1 :: l1 :: l2 :: l3 :: h2 :: d3 :: d4 :: _ =>
      is_digit d1 && is_digit d2 && (h1 =? 45)
      && is_letter l1 && is_letter l2 && is_letter l3 && (h2 =? 45)
      && is_digit d3 && is_digit d4
  | _ => false
  end.

Fixpoint spec_date_within (cell : jsstring) : bool :=
  spec_date_at cell ||
  match cell with
  | [] => false
  | _ :: cell' => spec_date_within cell'
  end.

Definition spec_header_candidate (r : row) : bool :=
  bool_decide (1 < length r < 20)%nat
  && forallb (λ cell, bool_decide (0 < length cell < 50)%nat) r
  && negb (existsb spec_date_within r).

(** Scenario 2 of the specification: the state after the row
    ["SHIPMENT DETAILS"], and the rows that follow. *)
Definition in_shipment_details : DCSC.ScanState :=
  {| DCSC.allSections := [];
     DCSC.currentSection := Some (opened ascii_toLowerCase (js "SHIPMENT DETAILS"));
     DCSC.currentHeaders := [] |}.

Definition date_status_row : row := [js "Date"; js "Status"].
Definition arrival_row : row := [js "05-Jan-24"; js "Arrived"].

(** A row whose first cell has digits where a month would stand. *)
Definition numeric_date_row : row := [js "05-123-24"; js "ab"].

(** The keys a header row gives: its cleaned names, with the positional
    placeholder for an empty one. *)
Definition header_keys (headers : list jsstring) : list jsstring :=
  imap (λ j h, headerKey h j) headers.

(** The keys a record can hold of them: all but "__proto__". *)
Definition own_keys (headers : list jsstring) : list jsstring :=
  filter (λ key, key ≠ js "__proto__") (header_keys headers).

(** A table of source B whose data row is shorter than its header, and
    rows of source A whose header names one column twice. *)
Definition short_row_table : Server.RawTable :=
  {| Server.table_id := js "grd1";
     Server.table_number := 1;
     Server.total_rows := 2;
     Server.rows := [[js "A"; js "B"]; [js "1"]] |}.

Definition twice_named_rows : list row :=
  [[js "CARGO DETAILS"]; [js "A"; js "A"]; [js "1"; js "2"]].

(** Scenario 1 of the specification. *)
Definition scenario1_table : Server.RawTable :=
  {| Server.table_id := js "grd1";
     Server.table_number := 1;
     Server.total_rows := 3;
     Server.rows := [[js "A"; js "B"]; [js "1"; js "2"]; [js "3"; js "4"]] |}.

(** Scenario 5 of the specification: an envelope whose source is "C". *)
Definition source_C_data : Envelope Server.RawTable :=
  {| awb_number := js "05700359741";
     service_name := None;
     service_code := js "C";
     extraction_time := js "1/1/2026, 10:00:00 am";
     total_tables := 1;
     tables := [scenario1_table] |}.

(** The clock reading of an envelope replaced by [t]. *)
Definition set_time {T} (t : jsstring) (e : Envelope T) : Envelope T :=
  {| awb_number := awb_number e;
     service_name := service_name e;
     service_code := service_code e;
     extraction_time := t;
     total_tables := total_tables e;
     tables := tables e |}.

Definition parsed_set_time (t : jsstring) (p : Parsed) : Parsed :=
  match p with
  | Sections e => Sections (set_time t e)
  | Records e => Records (set_time t e)
  | Unparsed e => Unparsed (set_time t e)
  end.

Definition outcome_map {A B} (f : A → B) (o : outcome A) : outcome B :=
  obind o (λ a, Returned (f a)).

(** A table element is named like a grid when its id starts with "Grid"
    or with "grd". *)
Definition grid_named (t : Scraper.Table) : Prop :=
  ∃ rest, Scraper.table_id t = js "Grid" ++ rest
          ∨ Scraper.table_id t = js "grd" ++ rest.

(** A page with one table [[A, B], [1, 2]] that has no id, and a page with
    that table twice. *)
Definition plain_table_node : Scraper.TableNode :=
  {| Scraper.attr_id := None;
     Scraper.table_trs :=
       [ {| Scraper.row_cells :=
              [ {| Scraper.cell_name := Scraper.th; Scraper.cell_text := js "A" |};
                {| Scraper.cell_name := Scraper.th; Scraper.cell_text := js "B" |} ] |};
         {| Scraper.row_cells :=
              [ {| Scraper.cell_name := Scraper.td; Scraper.cell_text := js " 1 " |};
                {| Scraper.cell_name := Scraper.td; Scraper.cell_text := js "2" |} ] |} ] |}.

Definition one_table_page : Scraper.Document := [plain_table_node].
Definition two_table_page : Scraper.Document := [plain_table_node; plain_table_node].

(** A page with the table of scenario 1. *)
Definition grid_page : Scraper.Document :=
  [ {| Scraper.attr_id := Some (js "grd1");
       Scraper.table_trs := Scraper.table_trs plain_table_node |} ].

(** A cell text as the extractor leaves it: not empty, and with no white
    space to trim. *)
Definition clean_cell (cell : jsstring) : Prop := cell ≠ [] ∧ trim cell = cell.

(** Row [r] was extracted from the row element at its [row_number] among
    the row elements [trs]. *)
Definition row_from (trs : list Scraper.RowNode) (r : Scraper.Row) : Prop :=
  ∃ tr, trs !! Scraper.row_number r = Some tr
        ∧ Scraper.cells r = Scraper.extract_cells (Scraper.row_cells tr).

(** Table [t] was extracted from the table element [node]: its rows are
    the rows of [node], and its id is the id attribute of [node] or, when
    that is missing or empty, "table_" and the number of [t]. *)
Definition table_from (node : Scraper.TableNode) (t : Scraper.Table) : Prop :=
  Scraper.rows t = Scraper.extract_rows 0 (Scraper.table_trs node)
  ∧ Scraper.table_id t
    = match Scraper.attr_id node with
      | Some (c :: i) => c :: i
      | _ => js "table_" ++ decimal (Scraper.table_number t)
      end.

(** The white space of [s] is single spaces, none next to another;
    [after_space] says that [s] follows a space. *)
Fixpoint single_spaced (after_space : bool) (s : jsstring) : Prop :=
  match s with
  | [] => True
  | c :: s' =>
      if is_white_space c
      then after_space = false ∧ c = 32 ∧ single_spaced true s'
      else single_spaced false s'
  end.

(** Source A: the records of the rows [body] that follow a section-start
    row: the first row that looks like a header gives the names, and every
    later row with as many cells gives a record, in order. *)
Fixpoint records_of_body (body : list row) : list record :=
  match body with
  | [] => []
  | r :: body' =>
      if DCSC.looksLikeHeader r
      then (λ r', DCSC.fill_record 0 (cleanHeader <$> r) r' ∅)
           <$> filter (λ r' : row, length r' = length r) body'
      else records_of_body body'
  end.

(** The section of a section-start event, in closed form. *)
Definition section_of (toLowerCase : jsstring → jsstring)
    (event : jsstring * list row) : DCSC.SectionAcc :=
  {| DCSC.section_title := trim event.1;
     DCSC.table_id := replace_ws (js "_") (toLowerCase event.1);
     DCSC.data := records_of_body event.2 |}.

(** The key set a header row gives, in the words of the specification:
    at each position the cleaned cell, or [Column <1-based index>] when
    the cleaned cell is empty. *)
Definition derived_keys (hrow : row) : list jsstring :=
  imap (λ j cell,
          match cleanHeader cell with
          | [] => js "Column " ++ js (NilEmpty.string_of_uint (Nat.to_uint (j + 1)))
          | name => name
          end)
       hrow.

(** * Properties *)

(** ** Strings *)

Lemma trimStart_starts_clean s : starts_clean (trimStart s).
Proof.
  induction s as [|c s IH]; simpl; [done|].
  destruct (is_white_space c) eqn:E; [exact IH | exact E].
Qed.

Lemma trimStart_clean s : starts_clean s → trimStart s = s.
Proof. destruct s as [|c s]; simpl; [done|]. by intros ->. Qed.

Lemma trimStart_suffix s : ∃ p, s = p ++ trimStart s.
Proof.
  induction s as [|c s [p IH]]; simpl; [by exists []|].
  destruct (is_white_space c).
  - exists (c :: p). simpl. by f_equal.
  - by exists [].
Qed.

Lemma trimEnd_prefix s : ∃ q, s = trimEnd s ++ q.
Proof.
  destruct (trimStart_suffix (reverse s)) as [p Hp].
  exists (reverse p). unfold trimEnd.
  rewrite <- reverse_app, <- Hp. by rewrite reverse_involutive.
Qed.

Lemma trimEnd_starts_clean s : starts_clean s → starts_clean (trimEnd s).
Proof.
  intros Hs. destruct (trimEnd_prefix s) as [q Hq].
  destruct (trimEnd s) as [|c t]; [done|].
  rewrite Hq in Hs. exact Hs.
Qed.

Lemma trimEnd_clean s : starts_clean (reverse s) → trimEnd s = s.
Proof.
  intros Hs. unfold trimEnd. rewrite trimStart_clean by done.
  apply reverse_involutive.
Qed.

Lemma trim_starts_clean s : starts_clean (trim s).
Proof. apply trimEnd_starts_clean, trimStart_starts_clean. Qed.

Lemma trim_ends_clean s : starts_clean (reverse (trim s)).
Proof.
  unfold trim, trimEnd. rewrite reverse_involutive.
  apply trimStart_starts_clean.
Qed.

Lemma trim_idempotent s : trim (trim s) = trim s.
Proof.
  unfold trim at 1. rewrite (trimStart_clean (trim s)) by apply trim_starts_clean.
  apply trimEnd_clean, trim_ends_clean.
Qed.

Lemma truthy_nonempty s : truthy s = true ↔ s ≠ [].
Proof. destruct s; simpl; split; congruence. Qed.

(** ** The grid extractor *)

Lemma extract_cells_ok nodes : Forall cell_ok (Scraper.extract_cells nodes).
Proof.
  induction nodes as [|c nodes IH]; simpl; [constructor|].
  apply Forall_app. split; [|exact IH].
  destruct (truthy (trim (Scraper.cell_text c))) eqn:E; [|constructor].
  apply truthy_nonempty in E.
  repeat constructor; simpl; [done|]. by rewrite trim_idempotent.
Qed.

Lemma extract_rows_ok i trs : Forall row_ok (Scraper.extract_rows i trs).
Proof.
  revert i. induction trs as [|r trs IH]; intros i; simpl; [constructor|].
  apply Forall_app. split; [|apply IH].
  case_bool_decide as Hlen; [|constructor].
  repeat constructor; simpl; [|apply extract_cells_ok].
  intros E. rewrite E in Hlen. simpl in Hlen. lia.
Qed.

Lemma extract_tables_ok i doc : Forall table_ok (Scraper.extract_tables i doc).
Proof.
  revert i. induction doc as [|t doc IH]; intros i; simpl; [constructor|].
  case_bool_decide as Hlen; [|apply IH].
  constructor; [|apply IH].
  split; simpl; [|split; [done | apply extract_rows_ok]].
  intros E. rewrite E in Hlen. simpl in Hlen. lia.
Qed.

(** C5: whatever document the extractor is given, every table it returns
    has at least one row, every row of it has at least one cell, and no
    cell has an empty text, also when the text is trimmed once more: empty
    cells, rows without cells and tables without rows are dropped. *)
Theorem C5_extraction_never_empty (awbNumber serviceOption now_iso : jsstring)
    (doc : Scraper.Document) :
  Forall table_ok
    (Scraper.all_tables (Scraper.parseHTML awbNumber serviceOption now_iso doc)).
Proof. apply extract_tables_ok. Qed.

(** ** Source B: header inference *)

Lemma header_test_spec r : GMR.header_test r = true ↔ header_shaped r.
Proof.
  unfold GMR.header_test, header_shaped.
  rewrite andb_true_iff, bool_decide_eq_true, forallb_forall, Forall_forall.
  split; intros [H1 H2]; (split; [done|]); intros c Hc.
  - apply list_elem_of_In in Hc. specialize (H2 c Hc).
    by apply bool_decide_eq_true in H2.
  - apply bool_decide_eq_true, H2. by apply list_elem_of_In.
Qed.

Lemma header_test_false r : GMR.header_test r = false ↔ ¬ header_shaped r.
Proof. rewrite <- header_test_spec. by destruct (GMR.header_test r). Qed.

Lemma headerRowIndex_from_spec i rs :
  (Forall (λ r, ¬ header_shaped r) rs ∧ GMR.headerRowIndex_from i rs = 0%nat)
  ∨ (∃ k r, GMR.headerRowIndex_from i rs = (i + k)%nat
            ∧ rs !! k = Some r ∧ header_shaped r
            ∧ ∀ j r', (j < k)%nat → rs !! j = Some r' → ¬ header_shaped r').
Proof.
  revert i. induction rs as [|r rs IH]; intros i; simpl.
  - left. by split; [constructor|].
  - destruct (GMR.header_test r) eqn:E.
    + right. exists 0%nat, r. apply header_test_spec in E.
      split; [lia|]. split; [done|]. split; [done|]. intros; lia.
    + apply header_test_false in E.
      destruct (IH (S i)) as [[Hall H0] | (k & r0 & Hk & Hr0 & Hs & Hmin)].
      * left. by split; [constructor|].
      * right. exists (S k), r0. split; [lia|]. split; [done|]. split; [done|].
        intros [|j] r' Hj Hr'; simpl in Hr'; [by simplify_eq|].
        apply (Hmin j); [lia | done].
Qed.

Lemma headerRowIndex_spec rs : first_header_shaped rs (GMR.headerRowIndex rs).
Proof.
  unfold GMR.headerRowIndex, first_header_shaped.
  destruct (headerRowIndex_from_spec 0 rs)
    as [[Hall H0] | (k & r & Hk & Hr & Hs & Hmin)].
  - right. by rewrite H0.
  - left. rewrite Hk. simpl. by exists r.
Qed.

Lemma headerRowIndex_defined rs :
  rs ≠ [] → ∃ hrow, rs !! GMR.headerRowIndex rs = Some hrow.
Proof.
  intros Hne.
  destruct (headerRowIndex_spec rs) as [(r & Hr & _) | [-> _]]; [by exists r|].
  destruct rs as [|r rs]; [done|]. by exists r.
Qed.

Lemma fill_record_lookup (i : nat) (headers : list jsstring) (r : row) (obj : record)
    (key v : jsstring) :
  GMR.fill_record i headers r obj !! key = Some v →
  obj !! key = Some v
  ∨ ∃ k : nat, headers !! k = Some key ∧ r !! (i + k)%nat = Some v.
Proof.
  revert i obj. induction headers as [|h hs IH]; intros i obj; simpl; [by left|].
  intros H. apply IH in H as [H | (k & Hk & Hv)].
  - destruct (truthy h) eqn:Eh; [|by left].
    destruct (r !! i) as [c|] eqn:Ec; [|by left].
    unfold headerKey, obj_set in H. rewrite Eh in H.
    case_decide; [by left|].
    destruct (decide (h = key)) as [->|Hne].
    + rewrite lookup_insert_eq in H. simplify_eq.
      right. exists 0%nat. by rewrite Nat.add_0_r.
    + rewrite lookup_insert_ne in H by done. by left.
  - right. exists (S k). split; [done|].
    by replace (i + S k)%nat with (S i + k)%nat by lia.
Qed.

Lemma fill_record_fresh (i : nat) (headers : list jsstring) (r : row) (obj : record)
    (key : jsstring) :
  key ∉ headers → GMR.fill_record i headers r obj !! key = obj !! key.
Proof.
  revert i obj. induction headers as [|h hs IH]; intros i obj Hk; simpl; [done|].
  apply not_elem_of_cons in Hk as [Hne Hk].
  rewrite IH by done.
  destruct (truthy h) eqn:Eh; [|done].
  destruct (r !! i); [|done].
  unfold headerKey, obj_set. rewrite Eh.
  case_decide; [done|]. by rewrite lookup_insert_ne.
Qed.

Lemma fill_record_distinct (i : nat) (headers : list jsstring) (r : row)
    (obj : record) (k : nat) (header v : jsstring) :
  NoDup headers → headers !! k = Some header → header ≠ [] →
  header ≠ js "__proto__" →
  r !! (i + k)%nat = Some v →
  GMR.fill_record i headers r obj !! header = Some v.
Proof.
  revert i k obj.
  induction headers as [|h hs IH]; intros i k obj Hnd Hk Hne Hproto Hv; [done|].
  apply NoDup_cons in Hnd as [Hh Hnd]. simpl.
  destruct k as [|k]; simpl in Hk.
  - simplify_eq. rewrite Nat.add_0_r in Hv.
    rewrite fill_record_fresh by done.
    apply truthy_nonempty in Hne. rewrite Hne, Hv.
    unfold headerKey, obj_set. rewrite Hne, decide_False by done.
    apply lookup_insert_eq.
  - apply (IH (S i) k); [done | done | done | done |].
    by replace (S i + k)%nat with (i + S k)%nat by lia.
Qed.

Lemma fill_record_positional (headers : list jsstring) (r : row) :
  positional headers r (GMR.fill_record 0 headers r ∅).
Proof.
  split.
  - intros key v H. apply fill_record_lookup in H as [H | H]; [|done].
    by rewrite lookup_empty in H.
  - intros Hnd i header v Hi Hne Hproto Hv.
    by apply (fill_record_distinct 0 _ _ _ i).
Qed.

Lemma dom_obj_set (key value : jsstring) (obj : record) (k : jsstring) :
  k ∈ dom (obj_set key value obj)
  ↔ k ∈ dom obj ∨ (k = key ∧ key ≠ js "__proto__").
Proof.
  unfold obj_set. case_decide as Hp.
  - split; [by left | intros [? | [_ ?]]; done].
  - rewrite dom_insert_L, elem_of_union, elem_of_singleton. naive_solver.
Qed.

Lemma gmr_fill_record_dom (i : nat) (headers : list jsstring) (r : row)
    (obj : record) (key : jsstring) :
  key ∈ dom (GMR.fill_record i headers r obj)
  ↔ key ∈ dom obj
    ∨ (key ≠ [] ∧ key ≠ js "__proto__"
       ∧ ∃ k : nat, headers !! k = Some key ∧ is_Some (r !! (i + k)%nat)).
Proof.
  revert i obj. induction headers as [|h hs IH]; intros i obj; simpl.
  { split; [by left | intros [? | (_ & _ & k & ? & _)]; done]. }
  rewrite IH. split.
  - intros [Hk | (Hne & Hp & k & Hk & Hv)].
    + destruct (truthy h) eqn:Eh; [|by left].
      destruct (r !! i) as [v|] eqn:Ev; [|by left].
      unfold headerKey in Hk. rewrite Eh in Hk.
      apply dom_obj_set in Hk as [Hk | [-> Hp]]; [by left|].
      right. split; [by apply truthy_nonempty|]. split; [done|].
      exists 0%nat. by rewrite Nat.add_0_r, Ev.
    + right. split; [done|]. split; [done|]. exists (S k). split; [done|].
      by replace (i + S k)%nat with (S i + k)%nat by lia.
  - intros [Hk | (Hne & Hp & [|k] & Hk & Hv)]; simpl in Hk.
    + left. destruct (truthy h); [|done]. destruct (r !! i); [|done].
      apply dom_obj_set. by left.
    + simplify_eq. left. rewrite Nat.add_0_r in Hv. destruct Hv as [v Hv].
      apply truthy_nonempty in Hne. rewrite Hne, Hv.
      unfold headerKey. rewrite Hne. apply dom_obj_set. by right.
    + right. split; [done|]. split; [done|]. exists k. split; [done|].
      by replace (S i + k)%nat with (i + S k)%nat by lia.
Qed.

Lemma gmr_record_keys (headers : list jsstring) (r : row) (key : jsstring) :
  key ∈ dom (GMR.fill_record 0 headers r ∅)
  ↔ key ≠ [] ∧ key ≠ js "__proto__" ∧ key ∈ take (length r) headers.
Proof.
  rewrite gmr_fill_record_dom, dom_empty_L, elem_of_take. simpl. split.
  - intros [Hk | (Hne & Hp & k & Hk & Hv)]; [by apply elem_of_empty in Hk|].
    split; [done|]. split; [done|]. exists k. split; [done|].
    destruct Hv as [v Hv]. by apply lookup_lt_Some in Hv.
  - intros (Hne & Hp & k & Hk & Hlt). right. split; [done|]. split; [done|].
    exists k. split; [done|]. by apply lookup_lt_is_Some.
Qed.

Lemma gmr_record_full (headers : list jsstring) (r : row) :
  NoDup headers → Forall (λ h, h ≠ [] ∧ h ≠ js "__proto__") headers →
  (length headers ≤ length r)%nat →
  dom (GMR.fill_record 0 headers r ∅) = list_to_set headers
  ∧ size (GMR.fill_record 0 headers r ∅) = length headers.
Proof.
  intros Hnd Hne Hlen.
  assert (dom (GMR.fill_record 0 headers r ∅) = list_to_set headers) as Hdom.
  { apply set_eq. intros key.
    rewrite gmr_record_keys, take_ge, elem_of_list_to_set by done.
    split; [by intros (_ & _ & ?)|]. intros Hk.
    destruct (proj1 (Forall_forall _ _) Hne key Hk). done. }
  split; [done|].
  rewrite <- size_dom, Hdom. by apply size_list_to_set.
Qed.

(** C3: for a table with at least one row, the header row is the first row
    with more than one cell and with every cell shorter than 100 code units,
    or row 0 when there is none; the table is returned with one record per
    row after the header row, in the order of the rows, each mapping the
    cleaned header names to the cells of its row by position; a record has
    a key only where its row has a cell under that name, so the names over
    the missing trailing cells of a shorter row are absent. *)
Theorem C3_header_inference (table : Server.RawTable)
    (Hrows : Server.rows table ≠ []) :
  let rows := Server.rows table in
  let h := GMR.headerRowIndex rows in
  first_header_shaped rows h
  ∧ ∃ hrow recs,
      rows !! h = Some hrow
      ∧ GMR.parseTable table
        = Returned {| GMR.table_id := Server.table_id table;
                      GMR.table_number := Server.table_number table;
                      GMR.data := recs;
                      GMR.total_rows := length recs |}
      ∧ length recs = (length rows - (h + 1))%nat
      ∧ (∀ k r, rows !! (h + 1 + k)%nat = Some r →
           ∃ rec, recs !! k = Some rec
                  ∧ positional (cleanHeader <$> hrow) r rec
                  ∧ ∀ i key, (length r ≤ i)%nat →
                      (cleanHeader <$> hrow) !! i = Some key →
                      key ∉ take (length r) (cleanHeader <$> hrow) →
                      rec !! key = None).
Proof.
  intros rows h. split; [apply headerRowIndex_spec|].
  destruct (headerRowIndex_defined rows Hrows) as [hrow Hh].
  exists hrow, (GMR.cleanData (cleanHeader <$> hrow) (drop (h + 1) rows)).
  split; [done|]. split.
  { unfold GMR.parseTable. unfold rows, h in Hh |- *. by rewrite Hh. }
  split.
  { unfold GMR.cleanData. by rewrite length_fmap, length_drop. }
  intros k r Hr.
  exists (GMR.fill_record 0 (cleanHeader <$> hrow) r ∅). split.
  { unfold GMR.cleanData. by rewrite list_lookup_fmap, lookup_drop, Hr. }
  split; [apply fill_record_positional|].
  intros i key Hi Hkey Hnotin.
  destruct (GMR.fill_record 0 (cleanHeader <$> hrow) r ∅ !! key) as [v|] eqn:E;
    [|done].
  apply fill_record_lookup in E as [E | (i' & Hi' & Hv)];
    [by rewrite lookup_empty in E|].
  exfalso. apply Hnotin. simpl in Hv.
  apply lookup_lt_Some in Hv.
  apply list_elem_of_lookup. exists i'. by rewrite lookup_take_lt.
Qed.

Lemma startsWith_spec s p : startsWith s p = true ↔ ∃ after, s = p ++ after.
Proof.
  revert s. induction p as [|a p IH]; intros s; simpl.
  - split; [intros _; by exists s | done].
  - destruct s as [|b s]; [split; [done | by intros [? ?]]|].
    rewrite andb_true_iff, N.eqb_eq, IH. split.
    + intros [-> [after ->]]. by exists after.
    + intros [after H]. simplify_eq. split; [done | by exists after].
Qed.

Lemma includes_spec s p :
  includes s p = true ↔ ∃ before after, s = before ++ p ++ after.
Proof.
  induction s as [|c s IH]; simpl; rewrite orb_true_iff, startsWith_spec.
  - split.
    + intros [[after H] | ?]; [|done]. by exists [], after.
    + intros (before & after & H). left.
      symmetry in H. apply app_eq_nil in H as [-> H]. by exists after.
  - rewrite IH. split.
    + intros [[after H] | (before & after & ->)].
      * by exists [], after.
      * by exists (c :: before), after.
    + intros ([|b before] & after & H); simpl in H.
      * left. by exists after.
      * right. simplify_eq. by exists before, after.
Qed.

(** ** Source A: sections *)

Lemma section_marker_spec r cell :
  DCSC.section_marker r = Some cell
  ↔ r = [cell] ∧ ∃ before after, cell = before ++ js "DETAILS" ++ after.
Proof.
  rewrite <- includes_spec. unfold DCSC.section_marker. split.
  - intros H. repeat case_match; by simplify_eq.
  - intros [-> H]. by rewrite H.
Qed.

Lemma is_digit_spec c : is_digit c = true ↔ digit c.
Proof. unfold is_digit, digit. rewrite andb_true_iff, !N.leb_le. done. Qed.

Lemma is_word_spec c : is_word c = true ↔ word_char c.
Proof.
  unfold is_word, word_char, letter.
  rewrite !orb_true_iff, !andb_true_iff, !N.leb_le, N.eqb_eq, is_digit_spec.
  tauto.
Qed.

Lemma date_test_spec cell : date_test cell = true ↔ starts_with_date cell.
Proof.
  unfold starts_with_date. split.
  - destruct cell as [|d1 [|d2 [|h1 [|w1 [|w2 [|w3 [|h2 [|d3 [|d4 rest]]]]]]]]];
      simpl; try done.
    rewrite !andb_true_iff, !N.eqb_eq, !is_digit_spec, !is_word_spec.
    intros ((((((((? & ?) & ->) & ?) & ?) & ?) & ->) & ?) & ?).
    by exists d1, d2, w1, w2, w3, d3, d4, rest.
  - intros (d1 & d2 & w1 & w2 & w3 & d3 & d4 & rest & -> & H). simpl.
    rewrite !andb_true_iff, !is_digit_spec, !is_word_spec. tauto.
Qed.

Lemma forallb_Forall {A} (f : A → bool) (P : A → Prop) l :
  (∀ x, f x = true ↔ P x) → forallb f l = true ↔ Forall P l.
Proof.
  intros Hf. induction l as [|x l IH]; simpl.
  - split; [constructor | done].
  - rewrite andb_true_iff, Forall_cons, Hf, IH. done.
Qed.

Lemma existsb_Forall_not {A} (f : A → bool) (P : A → Prop) l :
  (∀ x, f x = true ↔ P x) → existsb f l = false ↔ Forall (λ x, ¬ P x) l.
Proof.
  intros Hf. induction l as [|x l IH]; simpl.
  - split; [constructor | done].
  - rewrite orb_false_iff, Forall_cons, IH, <- Hf, not_true_iff_false. done.
Qed.

Lemma looksLikeHeader_spec r : DCSC.looksLikeHeader r = true ↔ header_candidate r.
Proof.
  unfold DCSC.looksLikeHeader, header_candidate.
  rewrite !andb_true_iff, !bool_decide_eq_true, negb_true_iff.
  rewrite (forallb_Forall _ (λ cell : jsstring, (0 < length cell < 50)%nat)).
  - rewrite (existsb_Forall_not _ starts_with_date) by apply date_test_spec.
    tauto.
  - intros cell. rewrite andb_true_iff, !bool_decide_eq_true. done.
Qed.

Lemma looksLikeHeader_spec_false r :
  ¬ header_candidate r → DCSC.looksLikeHeader r = false.
Proof.
  rewrite <- looksLikeHeader_spec. by destruct (DCSC.looksLikeHeader r).
Qed.

Section SourceA.

Variable toLowerCase : jsstring → jsstring.

Local Abbreviation step := (DCSC.step toLowerCase).

Lemma push_section_emitted all cur :
  DCSC.push_section all cur = all ++ emitted cur.
Proof.
  destruct cur as [s|]; simpl; [|by rewrite app_nil_r].
  destruct (decide (DCSC.data s ≠ [])) as [H|H].
  - rewrite bool_decide_eq_true_2; [done|].
    destruct (DCSC.data s); [done | simpl; lia].
  - apply dec_stable in H. rewrite H. simpl. by rewrite app_nil_r.
Qed.

Lemma step_marker st r cell :
  DCSC.section_marker r = Some cell →
  step st r = {| DCSC.allSections :=
                   DCSC.allSections st ++ emitted (DCSC.currentSection st);
                 DCSC.currentSection := Some (opened toLowerCase cell);
                 DCSC.currentHeaders := [] |}.
Proof.
  intros H. unfold step, DCSC.step. rewrite H.
  by rewrite push_section_emitted.
Qed.

Lemma step_plain_allSections st r :
  DCSC.section_marker r = None →
  DCSC.allSections (step st r) = DCSC.allSections st.
Proof.
  intros H. unfold step, DCSC.step. rewrite H.
  destruct (DCSC.currentSection st); [|done].
  repeat (case_match; try done).
Qed.

Lemma step_plain_is_Some st r :
  DCSC.section_marker r = None →
  is_Some (DCSC.currentSection st) →
  is_Some (DCSC.currentSection (step st r)).
Proof.
  intros H [sec Hsec]. unfold step, DCSC.step. rewrite H, Hsec.
  repeat (case_match; simpl; try done); by rewrite ?Hsec.
Qed.

(** The section and the header of the loop do not depend on the sections
    already pushed. *)
Lemma step_allSections_irrelevant st1 st2 r :
  DCSC.currentSection st1 = DCSC.currentSection st2 →
  DCSC.currentHeaders st1 = DCSC.currentHeaders st2 →
  DCSC.currentSection (step st1 r) = DCSC.currentSection (step st2 r)
  ∧ DCSC.currentHeaders (step st1 r) = DCSC.currentHeaders (step st2 r).
Proof.
  intros Hc Hh. unfold step, DCSC.step. rewrite Hc, Hh.
  destruct (DCSC.section_marker r); [done|].
  destruct (DCSC.currentSection st2) eqn:E2; [|split; congruence].
  repeat (case_match; simpl; try done); split; congruence.
Qed.

Lemma foldl_step_allSections_irrelevant rs st1 st2 :
  DCSC.currentSection st1 = DCSC.currentSection st2 →
  DCSC.currentHeaders st1 = DCSC.currentHeaders st2 →
  DCSC.currentSection (foldl step st1 rs) = DCSC.currentSection (foldl step st2 rs).
Proof.
  revert st1 st2. induction rs as [|r rs IH]; intros st1 st2 Hc Hh; simpl; [done|].
  destruct (step_allSections_irrelevant st1 st2 r Hc Hh). by apply IH.
Qed.

Lemma foldl_step_plain rs st :
  Forall (λ r, DCSC.section_marker r = None) rs →
  DCSC.allSections (foldl step st rs) = DCSC.allSections st
  ∧ (is_Some (DCSC.currentSection st) →
     is_Some (DCSC.currentSection (foldl step st rs))).
Proof.
  intros H. revert st. induction H as [|r rs Hr _ IH]; intros st; simpl; [done|].
  destruct (IH (step st r)) as [IH1 IH2]. split.
  - by rewrite IH1, step_plain_allSections.
  - intros Hs. by apply IH2, step_plain_is_Some.
Qed.

Lemma split_at_markers_spec rs :
  rs = (split_at_markers rs).1
       ++ mjoin ((λ event, [event.1] :: event.2) <$> section_starts rs)
  ∧ Forall (λ r, DCSC.section_marker r = None) (split_at_markers rs).1
  ∧ Forall (λ event, DCSC.section_marker [event.1] = Some event.1
                     ∧ Forall (λ r, DCSC.section_marker r = None) event.2)
           (section_starts rs).
Proof.
  unfold section_starts.
  induction rs as [|r rs (IH1 & IH2 & IH3)]; simpl; [by repeat constructor|].
  destruct (split_at_markers rs) as [body events] eqn:E. simpl in *.
  destruct (DCSC.section_marker r) as [cell|] eqn:Er; simpl.
  - assert (r = [cell]) as ->.
    { unfold DCSC.section_marker in Er. repeat case_match; by simplify_eq. }
    split; [by f_equal|]. split; [constructor|].
    constructor; [|done]. by split.
  - split; [by f_equal|]. split; [by constructor | done].
Qed.

Lemma section_starts_markers rs :
  (λ event, event.1) <$> section_starts rs = omap DCSC.section_marker rs.
Proof.
  unfold section_starts. induction rs as [|r rs IH]; simpl; [done|].
  destruct (split_at_markers rs) as [body events]. simpl in *.
  destruct (DCSC.section_marker r); simpl; [f_equal|]; exact IH.
Qed.

Lemma foldl_step_sections rs st :
  let st' := foldl step st rs in
  DCSC.push_section (DCSC.allSections st') (DCSC.currentSection st')
  = DCSC.allSections st
    ++ emitted (DCSC.currentSection (foldl step st (split_at_markers rs).1))
    ++ filter (λ s, DCSC.data s ≠ [])
              (accumulated toLowerCase <$> section_starts rs).
Proof.
  unfold section_starts. revert st.
  induction rs as [|r rs IH]; intros st; simpl.
  { by rewrite push_section_emitted, app_nil_r. }
  pose proof (split_at_markers_spec rs) as (_ & Hbody & _).
  destruct (split_at_markers rs) as [body events] eqn:E. simpl in *.
  rewrite IH. destruct (DCSC.section_marker r) as [cell|] eqn:Er; simpl.
  - rewrite (step_marker st r cell Er). simpl. rewrite <- app_assoc.
    f_equal. f_equal. rewrite filter_cons. f_equal.
    set (st1 := {| DCSC.allSections := _ ++ _ |}).
    unfold accumulated. simpl.
    set (st2 := {| DCSC.allSections := [] |}).
    rewrite (foldl_step_allSections_irrelevant body st1 st2) by done.
    destruct (foldl_step_plain body st2 Hbody) as [_ Hsome].
    destruct Hsome as [s Hs]; [by eexists|].
    fold step. rewrite Hs. simpl. by destruct (decide (DCSC.data s ≠ [])).
  - by rewrite step_plain_allSections.
Qed.

(** Before the first section-start row, nothing happens. *)
Lemma foldl_step_outside rs st :
  DCSC.currentSection st = None →
  Forall (λ r, DCSC.section_marker r = None) rs →
  foldl step st rs = st.
Proof.
  intros Hst H. induction H as [|r rs Hr _ IH]; simpl; [done|].
  assert (step st r = st) as ->; [|done].
  unfold step, DCSC.step. by rewrite Hr, Hst.
Qed.

Lemma scan_table_sections all rs :
  DCSC.scan_table toLowerCase all rs
  = all ++ filter (λ s, DCSC.data s ≠ [])
                  (accumulated toLowerCase <$> section_starts rs).
Proof.
  unfold DCSC.scan_table. fold step.
  rewrite (foldl_step_sections rs). simpl. f_equal.
  pose proof (split_at_markers_spec rs) as (_ & Hbody & _).
  set (st := {| DCSC.allSections := all |}).
  by rewrite foldl_step_outside.
Qed.

(** C1: a row of exactly one cell whose text contains "DETAILS" starts a
    section whatever the state: the current section is emitted if and only
    if it holds a record, a new section titled by the trimmed cell is
    opened with no record, and the header is reset.  At the end of the
    table the current section is emitted if it holds a record.  So the
    sections a table adds are, in order, the sections of its section-start
    events that hold a record at the next section-start row or at the end
    of the table, and their number is the number of those events. *)
Theorem C1_section_flush_law :
  (∀ r cell, DCSC.section_marker r = Some cell
             ↔ r = [cell] ∧ ∃ before after, cell = before ++ js "DETAILS" ++ after)
  ∧ (∀ st r cell, DCSC.section_marker r = Some cell →
       DCSC.step toLowerCase st r
       = {| DCSC.allSections :=
              DCSC.allSections st ++ emitted (DCSC.currentSection st);
            DCSC.currentSection :=
              Some {| DCSC.section_title := trim cell;
                      DCSC.table_id := replace_ws (js "_") (toLowerCase cell);
                      DCSC.data := [] |};
            DCSC.currentHeaders := [] |})
  ∧ (∀ all rs,
       DCSC.scan_table toLowerCase all rs
       = all ++ filter (λ s, DCSC.data s ≠ [])
                       (accumulated toLowerCase <$> section_starts rs))
  ∧ (∀ rs,
       length (DCSC.scan_table toLowerCase [] rs)
       = length (filter (λ event, DCSC.data (accumulated toLowerCase event) ≠ [])
                        (section_starts rs)))
  ∧ (∀ rs,
       (λ event, event.1) <$> section_starts rs = omap DCSC.section_marker rs
       ∧ rs = (split_at_markers rs).1
              ++ mjoin ((λ event, [event.1] :: event.2) <$> section_starts rs)
       ∧ Forall (λ r, DCSC.section_marker r = None) (split_at_markers rs).1
       ∧ Forall (λ event, Forall (λ r, DCSC.section_marker r = None) event.2)
                (section_starts rs)).
Proof.
  split; [exact section_marker_spec|].
  split; [exact step_marker|].
  split; [exact scan_table_sections|].
  split.
  { intros rs. rewrite scan_table_sections. simpl.
    induction (section_starts rs) as [|event events IH]; [done|].
    rewrite fmap_cons, !filter_cons.
    destruct (decide (DCSC.data (accumulated toLowerCase event) ≠ []));
      simpl; by rewrite IH. }
  intros rs. split; [apply section_starts_markers|].
  destruct (split_at_markers_spec rs) as (H1 & H2 & H3).
  split; [done|]. split; [done|].
  eapply Forall_impl; [exact H3|]. by intros event [_ H].
Qed.

(** *** The keys of the records *)

Lemma dcsc_fill_record_dom (j : nat) (headers : list jsstring) (r : row)
    (obj : record) (key : jsstring) :
  key ∈ dom (DCSC.fill_record j headers r obj)
  ↔ key ∈ dom obj
    ∨ (key ≠ js "__proto__"
       ∧ key ∈ imap (λ k h, headerKey h (j + k)) headers).
Proof.
  clear toLowerCase.
  revert j obj. induction headers as [|h hs IH]; intros j obj; simpl.
  { split; [by left | intros [? | [_ H]]; [done | by apply elem_of_nil in H]]. }
  rewrite IH, dom_obj_set, Nat.add_0_r, elem_of_cons.
  rewrite (imap_ext ((λ k h, headerKey h (j + k)) ∘ S)
                    (λ k h, headerKey h (S j + k))).
  - naive_solver.
  - intros k x _. simpl. f_equal. lia.
Qed.

Lemma dcsc_record_keys (headers : list jsstring) (r : row) :
  dom (DCSC.fill_record 0 headers r ∅) = list_to_set (own_keys headers).
Proof.
  clear toLowerCase.
  apply set_eq. intros key.
  rewrite dcsc_fill_record_dom, dom_empty_L, elem_of_list_to_set.
  unfold own_keys, header_keys. rewrite list_elem_of_filter. simpl.
  split; [intros [H | H]; [by apply elem_of_empty in H | done] | by right].
Qed.

Lemma own_keys_all (headers : list jsstring) :
  js "__proto__" ∉ header_keys headers → own_keys headers = header_keys headers.
Proof.
  intros H. unfold own_keys.
  induction (header_keys headers) as [|k ks IH]; [done|].
  apply not_elem_of_cons in H as [Hk Hks].
  rewrite filter_cons, decide_True by done. f_equal. by apply IH.
Qed.

Lemma header_candidate_nonempty hrow :
  header_candidate hrow → cleanHeader <$> hrow ≠ [].
Proof.
  intros [[H _] _] E. apply fmap_nil_inv in E. subst. simpl in H. lia.
Qed.

(** C2, as amended: in a section with no header yet, a row becomes the
    header if and only if it has more than one and fewer than 20 cells,
    every cell has a length strictly between 0 and 50, and no cell starts
    with two digits, a hyphen, three word characters (letters, digits or
    underscores), a hyphen and two digits; the header keys are then the
    cells, trimmed and with each run of white space collapsed to one
    space.  Any other row leaves the header empty, and unless it starts a
    section it changes nothing at all. *)
Theorem C2_header_detection (st : DCSC.ScanState) (sec : DCSC.SectionAcc)
    (r : row)
    (Hsec : DCSC.currentSection st = Some sec)
    (Hnoheader : DCSC.currentHeaders st = []) :
  (DCSC.currentHeaders (DCSC.step toLowerCase st r) ≠ [] ↔ header_candidate r)
  ∧ (header_candidate r →
     DCSC.step toLowerCase st r
     = {| DCSC.allSections := DCSC.allSections st;
          DCSC.currentSection := Some sec;
          DCSC.currentHeaders :=
            (λ h, replace_ws (js " ") (trim h)) <$> r |})
  ∧ (¬ header_candidate r → DCSC.section_marker r = None →
     DCSC.step toLowerCase st r = st).
Proof.
  rewrite <- looksLikeHeader_spec. unfold DCSC.step.
  rewrite Hsec, Hnoheader. simpl.
  destruct (DCSC.section_marker r) as [cell|] eqn:Em.
  { apply section_marker_spec in Em as [-> _]. simpl.
    split; [|split]; [split|..]; done. }
  destruct (DCSC.looksLikeHeader r) eqn:El.
  - assert (1 < length r)%nat as Hlen.
    { apply looksLikeHeader_spec in El. destruct El as [[? _] _]. done. }
    rewrite bool_decide_eq_false_2 by lia. simpl.
    split; [|split]; [split|..]; try done.
    intros _. destruct r; simpl in *; [lia | done].
  - simpl. case_bool_decide; split; [|split| |split]; try done;
      rewrite ?Hnoheader; by split.
Qed.

End SourceA.

(** Scenario 2: [Date, Status] becomes the header of SHIPMENT DETAILS. *)
Lemma C2_header_detection_witness :
  DCSC.currentSection in_shipment_details
    = Some (opened ascii_toLowerCase (js "SHIPMENT DETAILS"))
  ∧ DCSC.currentHeaders in_shipment_details = []
  ∧ DCSC.step ascii_toLowerCase in_shipment_details date_status_row
    = {| DCSC.allSections := [];
         DCSC.currentSection :=
           Some (opened ascii_toLowerCase (js "SHIPMENT DETAILS"));
         DCSC.currentHeaders := [js "Date"; js "Status"] |}.
Proof.
  split; [reflexivity|]. split; [reflexivity|].
  refine (proj1 (proj2 (C2_header_detection ascii_toLowerCase
                          in_shipment_details _ date_status_row
                          eq_refl eq_refl)) _).
  apply looksLikeHeader_spec. reflexivity.
Defined.

(** C2, as the specification words it, fails: the cells of [05-123-24, ab]
    hold no two digits, hyphen, three letters, hyphen, two digits, and the
    row has the count and the lengths of a header candidate, yet it does not
    become the header. *)
Lemma C2_counterexample :
  spec_header_candidate numeric_date_row = true
  ∧ DCSC.currentHeaders
      (DCSC.step ascii_toLowerCase in_shipment_details numeric_date_row) = [].
Proof. split; reflexivity. Qed.

(** C4, as the specification words it, fails for both sources: the record
    of source B for the row [1] under the header [A, B] has one key where
    the header has two cells, and the record of source A under the header
    [A, A] has one key where the header has two cells. *)
Lemma C4_counterexample :
  (∃ t rec, GMR.parseTable short_row_table = Returned t
            ∧ GMR.data t = [rec]
            ∧ Server.rows short_row_table
                !! GMR.headerRowIndex (Server.rows short_row_table)
              = Some [js "A"; js "B"]
            ∧ dom rec = {[ js "A" ]}
            ∧ size rec = 1%nat)
  ∧ (∃ sec rec, DCSC.scan_table ascii_toLowerCase [] twice_named_rows = [sec]
                ∧ DCSC.data sec = [rec]
                ∧ DCSC.looksLikeHeader [js "A"; js "A"] = true
                ∧ dom rec = {[ js "A" ]}
                ∧ size rec = 1%nat).
Proof.
  split.
  - eexists _, _. split; [reflexivity|]. split; [reflexivity|].
    split; [reflexivity|]. split; by vm_compute.
  - eexists _, _. split; [reflexivity|]. split; [reflexivity|].
    split; [reflexivity|]. split; by vm_compute.
Qed.

(** ** Scenario 1 *)

Lemma C3_header_inference_witness :
  Server.rows scenario1_table ≠ []
  ∧ ∃ recs,
      GMR.parseTable scenario1_table
      = Returned {| GMR.table_id := js "grd1";
                    GMR.table_number := 1;
                    GMR.data := recs;
                    GMR.total_rows := length recs |}
      ∧ length recs = 2%nat.
Proof.
  assert (Server.rows scenario1_table ≠ []) as Hrows by done.
  split; [exact Hrows|].
  destruct (C3_header_inference scenario1_table Hrows)
    as (_ & hrow & recs & _ & Hp & Hlen & _).
  exists recs. split; [exact Hp | exact Hlen].
Defined.

Example scenario1_records :
  GMR.parseTable scenario1_table
  = Returned {| GMR.table_id := js "grd1";
                GMR.table_number := 1;
                GMR.data := [ {[ js "A" := js "1"; js "B" := js "2" ]};
                              {[ js "A" := js "3"; js "B" := js "4" ]} ];
                GMR.total_rows := 2 |}.
Proof. by vm_compute. Qed.

(** ** Scenario 2 *)

Example scenario2_section :
  DCSC.scan_table ascii_toLowerCase []
    [[js "SHIPMENT DETAILS"]; date_status_row; arrival_row]
  = [ {| DCSC.section_title := js "SHIPMENT DETAILS";
         DCSC.table_id := js "shipment_details";
         DCSC.data := [ {[ js "Date" := js "05-Jan-24";
                           js "Status" := js "Arrived" ]} ] |} ].
Proof. by vm_compute. Qed.

(** A section that gathered no record is not emitted, and the marker is
    case-sensitive. *)
Example empty_section_dropped :
  DCSC.section_title
  <$> DCSC.scan_table ascii_toLowerCase []
        [[js "CARGO DETAILS"]; [js "FLIGHT DETAILS"]; date_status_row; arrival_row]
  = [js "FLIGHT DETAILS"].
Proof. by vm_compute. Qed.

Example marker_case_sensitive :
  DCSC.section_marker [js "Shipment details"] = None
  ∧ DCSC.section_marker [js " SHIPMENT DETAILS "] = Some (js " SHIPMENT DETAILS ")
  ∧ DCSC.section_marker [js "DETAILS"; js "x"] = None.
Proof. by vm_compute. Qed.

(** ** Scenario 4 *)

Example scenario4_short_row :
  GMR.parseTable short_row_table
  = Returned {| GMR.table_id := js "grd1";
                GMR.table_number := 1;
                GMR.data := [ ({[ js "A" := js "1" ]} : record) ];
                GMR.total_rows := 1 |}.
Proof. by vm_compute. Qed.

(** ** Exceptions of source B *)

Lemma parseTable_throws table :
  Server.rows table = [] → GMR.parseTable table = Thrown TypeError.
Proof. intros H. unfold GMR.parseTable. by rewrite H. Qed.

Lemma parseTable_returns table :
  Server.rows table ≠ [] → ∃ t, GMR.parseTable table = Returned t.
Proof.
  intros H. destruct (headerRowIndex_defined _ H) as [hrow Hh].
  unfold GMR.parseTable. rewrite Hh. by eexists.
Qed.

Lemma omapM_returns {A B} (f : A → outcome B) xs :
  Forall (λ x, ∃ y, f x = Returned y) xs → ∃ ys, omapM f xs = Returned ys.
Proof.
  induction 1 as [|x xs [y Hy] _ [ys IH]]; simpl; [by eexists|].
  rewrite Hy, IH. simpl. by eexists.
Qed.

Lemma omapM_throws {A B} (f : A → outcome B) xs x :
  x ∈ xs → f x = Thrown TypeError → omapM f xs = Thrown TypeError.
Proof.
  intros Hx Hf. induction Hx as [x xs | x x' xs _ IH]; simpl.
  - by rewrite Hf.
  - destruct (f x') as [y|[]]; simpl; [|done]. by rewrite IH.
Qed.

Lemma omapM_Forall2 {A B} (f : A → outcome B) xs ys :
  omapM f xs = Returned ys → Forall2 (λ x y, f x = Returned y) xs ys.
Proof.
  revert ys. induction xs as [|x xs IH]; intros ys; simpl.
  - intros ?. simplify_eq. constructor.
  - destruct (f x) as [y|] eqn:Ey; simpl; [|done].
    destruct (omapM f xs) as [ys'|]; simpl; [|done].
    intros ?. simplify_eq. constructor; [done | by apply IH].
Qed.

Lemma usefulTables_subseteq serviceOption all :
  Server.usefulTables serviceOption all ⊆ all.
Proof.
  unfold Server.usefulTables. case_decide.
  - intros t Ht. by apply list_elem_of_filter in Ht as [_ ?].
  - destruct all; set_solver.
Qed.

Lemma responseData_rows serviceOption now_locale data :
  Forall table_ok (Scraper.all_tables data) →
  Forall (λ t, Server.rows t ≠ [])
         (tables (Server.responseData serviceOption now_locale data)).
Proof.
  intros Hok. apply Forall_forall. intros t Ht. simpl in Ht.
  apply elem_of_lookup_imap in Ht as (i & table & -> & Hi).
  apply list_elem_of_lookup_2, usefulTables_subseteq in Hi.
  rewrite Forall_forall in Hok. destruct (Hok table Hi) as [Hne _].
  simpl. intros E. by apply fmap_nil_inv in E.
Qed.

(** C10: source B reads the row at the header index without a check.  A
    table with no row makes the callback, and with it the whole
    [parseGMRTables], throw a TypeError instead of returning an empty
    result; a table with a row never does.  The extractor returns no table
    without rows, so on the envelope the server builds from an extraction
    [parseGMRTables] always returns. *)
Theorem C10_source_B_needs_a_row :
  (∀ table, Server.rows table = [] →
     GMR.headerRowIndex (Server.rows table) = 0%nat
     ∧ GMR.parseTable table = Thrown TypeError)
  ∧ (∀ rawData table, table ∈ tables rawData → Server.rows table = [] →
       GMR.parseGMRTables rawData = Thrown TypeError)
  ∧ (∀ table, Server.rows table ≠ [] → ∃ t, GMR.parseTable table = Returned t)
  ∧ (∀ awbNumber serviceOption now_iso now_locale doc,
       let rawData :=
         Server.responseData serviceOption now_locale
           (Scraper.parseHTML awbNumber serviceOption now_iso doc) in
       Forall (λ table, Server.rows table ≠ []) (tables rawData)
       ∧ ∃ e, GMR.parseGMRTables rawData = Returned e).
Proof.
  split.
  { intros table H. split; [by rewrite H | by apply parseTable_throws]. }
  split.
  { intros rawData table Hin H. unfold GMR.parseGMRTables.
    by rewrite (omapM_throws _ _ table Hin (parseTable_throws table H)). }
  split; [exact parseTable_returns|].
  intros awbNumber serviceOption now_iso now_locale doc rawData.
  assert (Forall (λ table, Server.rows table ≠ []) (tables rawData)) as Hrows.
  { apply responseData_rows, extract_tables_ok. }
  split; [done|]. unfold GMR.parseGMRTables.
  destruct (omapM_returns GMR.parseTable (tables rawData)) as [ts Hts].
  { eapply Forall_impl; [exact Hrows|]. intros t. apply parseTable_returns. }
  rewrite Hts. by eexists.
Qed.

(** ** The dispatch on the source *)

(** C6, as amended: [parseTableData] hands an envelope with source code "1"
    to the section normalizer and one with source code "2" to the header
    inference normalizer, whose result or exception is its own; an envelope
    with any other source code is returned as it came, with no error.  On
    the server the service name "gmr" selects "2" and every other name
    selects "1". *)
Theorem C6_dispatch :
  (∀ toLowerCase rawData, service_code rawData = js "1" →
     parseTableData toLowerCase rawData
     = Returned (Sections (DCSC.parseDCSCTables toLowerCase rawData)))
  ∧ (∀ toLowerCase rawData, service_code rawData = js "2" →
       parseTableData toLowerCase rawData
       = match GMR.parseGMRTables rawData with
         | Returned e => Returned (Records e)
         | Thrown err => Thrown err
         end)
  ∧ (∀ toLowerCase rawData,
       service_code rawData ≠ js "1" → service_code rawData ≠ js "2" →
       parseTableData toLowerCase rawData = Returned (Unparsed rawData))
  ∧ Server.serviceOption (js "gmr") = js "2"
  ∧ (∀ service, service ≠ js "gmr" → Server.serviceOption service = js "1").
Proof.
  split; [|split; [|split; [|split]]].
  - intros lower rawData H. unfold parseTableData. rewrite H. by case_decide.
  - intros lower rawData H. unfold parseTableData. rewrite H.
    repeat case_decide; done.
  - intros lower rawData H1 H2. unfold parseTableData.
    repeat case_decide; done.
  - done.
  - intros service H. unfold Server.serviceOption. by case_decide.
Qed.

(** C6, as the specification words it, fails: for the source "C" the UI
    returns the envelope unchanged instead of failing, and the server
    treats the service name "C" as source "1". *)
Lemma C6_counterexample :
  parseTableData ascii_toLowerCase source_C_data = Returned (Unparsed source_C_data)
  ∧ Server.serviceOption (js "C") = js "1".
Proof. split; reflexivity. Qed.

(** ** The clock *)

Lemma parseGMRTables_set_time t rawData :
  GMR.parseGMRTables (set_time t rawData)
  = outcome_map (set_time t) (GMR.parseGMRTables rawData).
Proof.
  unfold GMR.parseGMRTables, outcome_map. simpl.
  by destruct (omapM GMR.parseTable (tables rawData)).
Qed.

Lemma parseTableData_set_time toLowerCase t rawData :
  parseTableData toLowerCase (set_time t rawData)
  = outcome_map (parsed_set_time t) (parseTableData toLowerCase rawData).
Proof.
  unfold parseTableData. simpl.
  repeat case_decide; try done.
  rewrite parseGMRTables_set_time. unfold outcome_map.
  by destruct (GMR.parseGMRTables rawData).
Qed.

(** C8, as amended: for a fixed service, AWB number and page, two runs of
    extraction and normalization give the same outcome up to the
    [extraction_time] of the envelope, which is the clock reading of the
    run. *)
Theorem C8_same_up_to_clock (toLowerCase : jsstring → jsstring)
    (service awbNumber : jsstring) (doc : Scraper.Document)
    (now_iso1 now_locale1 now_iso2 now_locale2 : jsstring) :
  scrape_and_parse toLowerCase service awbNumber now_iso1 now_locale1 doc
  = outcome_map (parsed_set_time now_locale1)
      (scrape_and_parse toLowerCase service awbNumber now_iso2 now_locale2 doc).
Proof.
  unfold scrape_and_parse. by rewrite <- parseTableData_set_time.
Qed.

(** C8, as the specification words it, fails: two runs on the same service
    and page at different clock readings return different envelopes. *)
Lemma C8_counterexample :
  ∃ e1 e2,
    scrape_and_parse ascii_toLowerCase (js "gmr") (js "05700359741")
      (js "2026-01-01T04:30:00.000Z") (js "1/1/2026, 10:00:00 am") grid_page
    = Returned (Records e1)
    ∧ scrape_and_parse ascii_toLowerCase (js "gmr") (js "05700359741")
        (js "2026-01-01T04:30:01.000Z") (js "1/1/2026, 10:00:01 am") grid_page
      = Returned (Records e2)
    ∧ extraction_time e1 = js "1/1/2026, 10:00:00 am"
    ∧ extraction_time e2 = js "1/1/2026, 10:00:01 am"
    ∧ e1 ≠ e2.
Proof.
  eexists _, _. split; [reflexivity|]. split; [reflexivity|].
  split; [reflexivity|]. split; [reflexivity|].
  intros E. apply (f_equal extraction_time) in E. vm_compute in E. discriminate E.
Qed.

(** ** The assembly of the envelopes *)

Lemma imap_numbers {A} (l : list A) :
  imap (λ idx _, (idx + 1)%nat) l = seq 1 (length l).
Proof.
  rewrite (imap_seq_0 l (λ idx, (idx + 1)%nat)).
  rewrite <- (fmap_add_seq 1 0). apply list_fmap_ext. intros; lia.
Qed.

Lemma grid_named_spec t :
  startsWith (Scraper.table_id t) (js "Grid")
  || startsWith (Scraper.table_id t) (js "grd") = true
  ↔ grid_named t.
Proof.
  rewrite orb_true_iff, !startsWith_spec. unfold grid_named. split.
  - intros [[rest H] | [rest H]]; exists rest; [by left | by right].
  - intros [rest [H | H]]; [left | right]; by exists rest.
Qed.

(** C9, as amended: the server keeps, for source "2", the tables whose id
    starts with "Grid" or "grd", in their order, and for any other source
    the first table only.  The tables it keeps are all in its envelope, in
    order, with their ids and the texts of their cells, numbered 1..k, and
    [total_tables] is k.  The section normalizer returns every section it
    emitted, in order, numbered 1..k with [total_tables] k; the header
    inference normalizer returns one table per table of the envelope, with
    the id and the number it came with. *)
Theorem C9_assembly :
  (∀ all t, t ∈ Server.usefulTables (js "2") all ↔ t ∈ all ∧ grid_named t)
  ∧ (∀ all, Server.usefulTables (js "2") all `sublist_of` all)
  ∧ (∀ serviceOption all, serviceOption ≠ js "2" →
       Server.usefulTables serviceOption all = take 1 all)
  ∧ (∀ serviceOption now_locale data,
       let kept := Server.usefulTables serviceOption (Scraper.all_tables data) in
       let env := Server.responseData serviceOption now_locale data in
       total_tables env = length kept
       ∧ Server.table_number <$> tables env = seq 1 (length kept)
       ∧ Server.table_id <$> tables env = Scraper.table_id <$> kept
       ∧ Server.rows <$> tables env
         = (λ t, (λ r, Scraper.text <$> Scraper.cells r) <$> Scraper.rows t)
           <$> kept)
  ∧ (∀ toLowerCase rawData,
       let sections :=
         foldl (λ all table, DCSC.scan_table toLowerCase all (Server.rows table))
               [] (tables rawData) in
       let env := DCSC.parseDCSCTables toLowerCase rawData in
       total_tables env = length sections
       ∧ DCSC.out_table_number <$> tables env = seq 1 (length sections)
       ∧ (λ t, (DCSC.out_table_id t, DCSC.out_section_title t, DCSC.out_data t))
         <$> tables env
         = (λ s, (DCSC.table_id s, DCSC.section_title s, DCSC.data s))
           <$> sections)
  ∧ (∀ rawData e, GMR.parseGMRTables rawData = Returned e →
       total_tables e = total_tables rawData
       ∧ length (tables e) = length (tables rawData)
       ∧ GMR.table_number <$> tables e = Server.table_number <$> tables rawData
       ∧ GMR.table_id <$> tables e = Server.table_id <$> tables rawData).
Proof.
  split; [|split; [|split; [|split; [|split]]]].
  - intros all t. unfold Server.usefulTables. rewrite decide_True by done.
    rewrite list_elem_of_filter, <- grid_named_spec, Is_true_true. tauto.
  - intros all. unfold Server.usefulTables. rewrite decide_True by done.
    apply sublist_filter.
  - intros serviceOption all H. unfold Server.usefulTables.
    rewrite decide_False by done. by destruct all.
  - intros serviceOption now_locale data kept env. simpl. fold kept.
    split; [done|]. rewrite !fmap_imap.
    split; [apply imap_numbers|].
    split; by rewrite <- imap_const.
  - intros toLowerCase rawData sections env. simpl. fold sections.
    split; [done|]. rewrite !fmap_imap.
    split; [apply imap_numbers|]. by rewrite <- imap_const.
  - intros rawData e. unfold GMR.parseGMRTables.
    destruct (omapM GMR.parseTable (tables rawData)) as [ts|] eqn:Ets; [|done].
    simpl. intros ?. simplify_eq. simpl. split; [done|].
    apply omapM_Forall2 in Ets.
    induction Ets as [|table t tables ts Ht _ (IH1 & IH2 & IH3)]; [done|].
    simpl. rewrite IH1. unfold GMR.parseTable in Ht.
    destruct (Server.rows table !! _); [|done]. simplify_eq. simpl.
    split; [done|]. split; by f_equal.
Qed.

(** C9, as the specification words it, fails: a table of the extraction
    whose id starts with neither "Grid" nor "grd" is dropped from the
    envelope of source "2", and of two tables only the first is kept for
    source "1". *)
Lemma C9_counterexample :
  length (Scraper.all_tables
            (Scraper.parseHTML (js "05700359741") (js "2")
               (js "2026-01-01T04:30:00.000Z") one_table_page)) = 1%nat
  ∧ tables (Server.responseData (js "2") (js "1/1/2026, 10:00:00 am")
              (Scraper.parseHTML (js "05700359741") (js "2")
                 (js "2026-01-01T04:30:00.000Z") one_table_page)) = []
  ∧ length (Scraper.all_tables
              (Scraper.parseHTML (js "05700359741") (js "1")
                 (js "2026-01-01T04:30:00.000Z") two_table_page)) = 2%nat
  ∧ length (tables (Server.responseData (js "1") (js "1/1/2026, 10:00:00 am")
                      (Scraper.parseHTML (js "05700359741") (js "1")
                         (js "2026-01-01T04:30:00.000Z") two_table_page)))
    = 1%nat.
Proof. repeat split; reflexivity. Qed.

(** * Further properties of the code *)

(** ** The AWB number *)

Lemma digit_not_white_space c : is_digit c = true → is_white_space c = false.
Proof.
  intros H. apply is_digit_spec in H. unfold digit in H. unfold is_white_space.
  repeat (rewrite (proj2 (N.eqb_neq c _)) by lia).
  rewrite (proj2 (N.leb_gt 8192 c)) by lia. done.
Qed.

Lemma filter_digit_trimStart s :
  filter (λ c, is_digit c) (trimStart s) = filter (λ c, is_digit c) s.
Proof.
  induction s as [|c s IH]; simpl; [done|].
  destruct (is_white_space c) eqn:E; [|done].
  rewrite IH, filter_cons, decide_False; [done|].
  intros H. apply Is_true_true, digit_not_white_space in H. congruence.
Qed.

Lemma filter_digit_trim s :
  filter (λ c, is_digit c) (trim s) = filter (λ c, is_digit c) s.
Proof.
  unfold trim, trimEnd.
  rewrite filter_reverse, filter_digit_trimStart, <- filter_reverse.
  by rewrite reverse_involutive, filter_digit_trimStart.
Qed.

Lemma splitAwbNumber_trim awb :
  Fetch.splitAwbNumber (trim awb) = Fetch.splitAwbNumber awb.
Proof. unfold Fetch.splitAwbNumber. by rewrite filter_digit_trim. Qed.

(** X1: the two parts of an AWB number are its digits, in order and
    nothing else: together they are the number with every other character
    removed.  The prefix has three digits and the rest at least one when
    there are four digits or more; otherwise the prefix is empty. *)
Theorem splitAwbNumber_parts (awb : jsstring) :
  let parts := Fetch.splitAwbNumber awb in
  Fetch.prefix parts ++ Fetch.number parts = filter (λ c, is_digit c) awb
  ∧ Forall digit (Fetch.prefix parts ++ Fetch.number parts)
  ∧ (length (Fetch.prefix parts) = 3%nat ∧ Fetch.number parts ≠ []
     ∨ Fetch.prefix parts = [] ∧ (length (Fetch.number parts) ≤ 3)%nat).
Proof.
  intros parts.
  assert (Fetch.prefix parts ++ Fetch.number parts = filter (λ c, is_digit c) awb)
    as Hcat.
  { unfold parts, Fetch.splitAwbNumber. case_bool_decide; simpl; [|done].
    apply take_drop. }
  split; [done|]. split.
  { rewrite Hcat. apply Forall_forall. intros c Hc.
    apply list_elem_of_filter in Hc as [Hc _].
    by apply is_digit_spec, Is_true_true. }
  unfold parts, Fetch.splitAwbNumber. case_bool_decide as Hlen; simpl.
  - left. split; [rewrite length_take; lia|].
    intros E. apply (f_equal length) in E. rewrite length_drop in E.
    simpl in E. lia.
  - right. split; [done | lia].
Qed.

(** X2: the server splits the AWB number as it came and the scraper splits
    it trimmed, and both get the same parts.  So the request the scraper
    sends is the one the handler reports: for source "2" the GET of the
    reported URL, for source "1" the POST of the two parts the reported
    text shows. *)
Theorem request_is_reported (awbNumber : jsstring) :
  Fetch.request awbNumber (js "2")
  = Some (Fetch.Get (response_url (js "2") awbNumber))
  ∧ Fetch.request awbNumber (js "1")
    = Some (Fetch.Post
              (js "https://dcsc.in:7002/DCSC_webportal/GetAWBExportTracking.do")
              [(js "awbpfx", Fetch.prefix (Fetch.splitAwbNumber awbNumber));
               (js "cod_awb_num", Fetch.number (Fetch.splitAwbNumber awbNumber))])
  ∧ response_url (js "1") awbNumber
    = js "https://dcsc.in:7002/DCSC_webportal/GetAWBExportTracking.do"
      ++ js " (POST: awbpfx=" ++ Fetch.prefix (Fetch.splitAwbNumber awbNumber)
      ++ js ", cod_awb_num=" ++ Fetch.number (Fetch.splitAwbNumber awbNumber)
      ++ js ")".
Proof.
  split; [|split].
  - unfold response_url. rewrite <- (splitAwbNumber_trim awbNumber). reflexivity.
  - rewrite <- (splitAwbNumber_trim awbNumber). reflexivity.
  - reflexivity.
Qed.

(** ** The extracted grid *)

Lemma extract_rows_spec i trs :
  StronglySorted (λ a b, (Scraper.row_number a < Scraper.row_number b)%nat)
                 (Scraper.extract_rows i trs)
  ∧ Forall (λ r, ∃ tr, (i ≤ Scraper.row_number r)%nat
                       ∧ trs !! (Scraper.row_number r - i)%nat = Some tr
                       ∧ Scraper.cells r
                         = Scraper.extract_cells (Scraper.row_cells tr))
           (Scraper.extract_rows i trs).
Proof.
  revert i. induction trs as [|tr trs IH]; intros i; simpl.
  { split; constructor. }
  destruct (IH (S i)) as [Hs Hf].
  assert (Forall (λ r, ∃ tr', (i ≤ Scraper.row_number r)%nat
                   ∧ (tr :: trs) !! (Scraper.row_number r - i)%nat = Some tr'
                   ∧ Scraper.cells r
                     = Scraper.extract_cells (Scraper.row_cells tr'))
                 (Scraper.extract_rows (S i) trs)) as Hf'.
  { eapply Forall_impl; [exact Hf|]. intros r (tr' & Hle & Hl & Hc).
    exists tr'. split; [lia|]. split; [|done].
    by replace (Scraper.row_number r - i)%nat
      with (S (Scraper.row_number r - S i)) by lia. }
  case_bool_decide; simpl; [|done]. split.
  - constructor; [done|]. eapply Forall_impl; [exact Hf|].
    intros r (_ & Hle & _). simpl. lia.
  - constructor; [|done]. exists tr. simpl. rewrite Nat.sub_diag. done.
Qed.

Lemma tableId_spec attr n t :
  Scraper.table_id t = Scraper.tableId attr n →
  Scraper.table_number t = n →
  Scraper.table_id t
  = match attr with
    | Some (c :: i) => c :: i
    | _ => js "table_" ++ decimal (Scraper.table_number t)
    end.
Proof. intros -> ->. by destruct attr as [[|c i]|]. Qed.

Lemma extract_tables_spec i doc :
  let kept :=
    filter (λ node, (0 < length (Scraper.extract_rows 0 (Scraper.table_trs node)))%nat)
           doc in
  Scraper.table_number <$> Scraper.extract_tables i doc = seq i (length kept)
  ∧ Forall2 table_from kept (Scraper.extract_tables i doc).
Proof.
  revert i. induction doc as [|node doc IH]; intros i; simpl.
  { split; [done | constructor]. }
  rewrite filter_cons. case_decide as H.
  - rewrite bool_decide_eq_true_2 by done. destruct (IH (S i)) as [IH1 IH2].
    simpl. split; [f_equal; exact IH1|]. constructor; [|done].
    split; [done|]. by apply (tableId_spec _ i).
  - rewrite bool_decide_eq_false_2 by done. apply IH.
Qed.

(** X3: in every extracted table the row numbers strictly increase, and a
    row stands at its [row_number] among the row elements of a table
    element of the page: the rows dropped before it are counted. *)
Theorem extracted_row_numbers (awbNumber serviceOption now_iso : jsstring)
    (doc : Scraper.Document) :
  Forall (λ t,
            StronglySorted
              (λ a b, (Scraper.row_number a < Scraper.row_number b)%nat)
              (Scraper.rows t)
            ∧ ∃ node, node ∈ doc
                ∧ Forall (row_from (Scraper.table_trs node)) (Scraper.rows t))
         (Scraper.all_tables
            (Scraper.parseHTML awbNumber serviceOption now_iso doc)).
Proof.
  simpl. destruct (extract_tables_spec 0 doc) as [_ H2].
  apply Forall_forall. intros t Ht.
  apply list_elem_of_lookup in Ht as [k Hk].
  destruct (Forall2_lookup_r _ _ _ _ _ H2 Hk) as (node & Hnode & Hrows & _).
  rewrite Hrows. destruct (extract_rows_spec 0 (Scraper.table_trs node)) as [Hs Hf].
  split; [done|]. exists node. split.
  { apply list_elem_of_lookup_2 in Hnode.
    by apply list_elem_of_filter in Hnode as [_ ?]. }
  eapply Forall_impl; [exact Hf|]. intros r (tr & _ & Hl & Hc).
  exists tr. by rewrite Nat.sub_0_r in Hl.
Qed.

(** X4: the extracted tables are numbered 0, 1, 2, ... in the order of the
    table elements that keep a row, one table per such element with the
    rows of that element; a table whose element has no id, or an empty
    one, is called "table_" and its own number, which counts the tables
    kept before it and not its place in the page. *)
Theorem extracted_tables_numbered (awbNumber serviceOption now_iso : jsstring)
    (doc : Scraper.Document) :
  let kept :=
    filter (λ node, (0 < length (Scraper.extract_rows 0 (Scraper.table_trs node)))%nat)
           doc in
  let all_tables :=
    Scraper.all_tables (Scraper.parseHTML awbNumber serviceOption now_iso doc) in
  Scraper.table_number <$> all_tables = seq 0 (length kept)
  ∧ Forall2 table_from kept all_tables.
Proof. apply extract_tables_spec. Qed.

Lemma extract_cells_clean nodes :
  Forall (λ c, clean_cell (Scraper.text c)) (Scraper.extract_cells nodes).
Proof.
  induction nodes as [|c nodes IH]; simpl; [constructor|].
  apply Forall_app. split; [|exact IH].
  destruct (truthy (trim (Scraper.cell_text c))) eqn:E; [|constructor].
  apply truthy_nonempty in E.
  repeat constructor; simpl; [done | apply trim_idempotent].
Qed.

Lemma responseData_rows_clean (awbNumber serviceOption now_iso now_locale : jsstring)
    (doc : Scraper.Document) :
  Forall (λ t, Server.rows t ≠ []
               ∧ Server.total_rows t = length (Server.rows t)
               ∧ Forall (λ r : row, r ≠ [] ∧ Forall clean_cell r) (Server.rows t))
         (tables (Server.responseData serviceOption now_locale
                    (Scraper.parseHTML awbNumber serviceOption now_iso doc))).
Proof.
  apply Forall_forall. intros t Ht. simpl in Ht.
  apply elem_of_lookup_imap in Ht as (i & table & -> & Hi).
  apply list_elem_of_lookup_2, usefulTables_subseteq in Hi.
  simpl in Hi. apply list_elem_of_lookup in Hi as [k Hk].
  destruct (extract_tables_spec 0 doc) as [_ H2].
  destruct (Forall2_lookup_r _ _ _ _ _ H2 Hk) as (node & _ & Hrows & _).
  pose proof (proj1 (Forall_forall _ _) (extract_tables_ok 0 doc) table
                (list_elem_of_lookup_2 _ _ _ Hk)) as (Hne & _ & Hok).
  simpl. split; [intros E; by apply fmap_nil_inv in E|].
  split; [by rewrite length_fmap|].
  apply Forall_fmap, Forall_forall. intros r Hr. simpl.
  rewrite Forall_forall in Hok. destruct (Hok r Hr) as [Hcells _].
  split; [intros E; by apply fmap_nil_inv in E|].
  apply Forall_fmap. simpl.
  rewrite Hrows in Hr. destruct (extract_rows_spec 0 (Scraper.table_trs node)) as [_ Hf].
  rewrite Forall_forall in Hf. destruct (Hf r Hr) as (tr & _ & _ & ->).
  apply extract_cells_clean.
Qed.

(** X6: on the wire every table of the envelope has at least one row and
    [total_rows] counts its rows; every row has at least one cell, and
    every cell is a non-empty text without white space at either end. *)
Theorem wire_rows_clean (awbNumber serviceOption now_iso now_locale : jsstring)
    (doc : Scraper.Document) :
  Forall (λ t, Server.rows t ≠ []
               ∧ Server.total_rows t = length (Server.rows t)
               ∧ Forall (λ r : row, r ≠ [] ∧ Forall clean_cell r) (Server.rows t))
         (tables (Server.responseData serviceOption now_locale
                    (Scraper.parseHTML awbNumber serviceOption now_iso doc))).
Proof. apply responseData_rows_clean. Qed.

(** ** Header names *)

Lemma replace_ws_single_spaced b s :
  single_spaced b (replace_ws_from (js " ") b s).
Proof.
  revert b. induction s as [|c s IH]; intros b; simpl; [done|].
  destruct (is_white_space c) eqn:E.
  - destruct b; simpl; [apply IH|]. split; [done|]. split; [done | apply IH].
  - simpl. rewrite E. apply IH.
Qed.

Lemma single_spaced_fixed b s :
  single_spaced b s → replace_ws_from (js " ") b s = s.
Proof.
  revert b. induction s as [|c s IH]; intros b; simpl; [done|].
  destruct (is_white_space c) eqn:E.
  - intros (-> & -> & H). simpl. f_equal. by apply IH.
  - intros H. f_equal. by apply IH.
Qed.

Lemma replace_ws_snoc sep b s c :
  is_white_space c = false →
  replace_ws_from sep b (s ++ [c]) = replace_ws_from sep b s ++ [c].
Proof.
  intros Hc. revert b. induction s as [|d s IH]; intros b; simpl.
  - by rewrite Hc.
  - destruct (is_white_space d); rewrite IH; [by rewrite app_assoc | done].
Qed.

Lemma replace_ws_starts_clean sep s :
  starts_clean s → starts_clean (replace_ws sep s).
Proof.
  destruct s as [|c s]; [done|]. unfold replace_ws. simpl. intros Hc.
  by rewrite Hc.
Qed.

Lemma replace_ws_ends_clean sep b s :
  starts_clean (reverse s) → starts_clean (reverse (replace_ws_from sep b s)).
Proof.
  induction s as [|c s _] using rev_ind; [done|].
  rewrite reverse_app. simpl. intros Hc.
  rewrite replace_ws_snoc by done. rewrite reverse_app. done.
Qed.

Lemma cleanHeader_trimmed h : trim (cleanHeader h) = cleanHeader h.
Proof.
  unfold cleanHeader, trim at 1.
  rewrite trimStart_clean by apply replace_ws_starts_clean, trim_starts_clean.
  apply trimEnd_clean, replace_ws_ends_clean, trim_ends_clean.
Qed.

(** X7: a cleaned header name is in normal form: it has no white space at
    either end, its white space is single spaces with none next to
    another, and cleaning it again changes nothing. *)
Theorem cleanHeader_normal_form (h : jsstring) :
  trim (cleanHeader h) = cleanHeader h
  ∧ single_spaced false (cleanHeader h)
  ∧ cleanHeader (cleanHeader h) = cleanHeader h.
Proof.
  split; [apply cleanHeader_trimmed|].
  split; [apply replace_ws_single_spaced|].
  unfold cleanHeader at 1. rewrite cleanHeader_trimmed.
  apply single_spaced_fixed, replace_ws_single_spaced.
Qed.

Lemma clean_cell_name cell :
  clean_cell cell →
  cleanHeader cell ≠ [] ∧ ∀ j, headerKey (cleanHeader cell) j = cleanHeader cell.
Proof.
  intros [Hne Htrim].
  assert (cleanHeader cell ≠ []) as H.
  { unfold cleanHeader. rewrite Htrim.
    pose proof (trim_starts_clean cell) as Hs. rewrite Htrim in Hs.
    destruct cell as [|c cell]; [done|]. unfold replace_ws. simpl.
    simpl in Hs. by rewrite Hs. }
  split; [done|]. intros j. unfold headerKey.
  apply truthy_nonempty in H. by rewrite H.
Qed.

(** X8: the cells the server sends never need the placeholder: the cleaned
    name of every cell of every row on the wire is non-empty, so
    [header || `Column ${j + 1}`] is the name itself at every position. *)
Theorem wire_names_never_placeholder
    (awbNumber serviceOption now_iso now_locale : jsstring)
    (doc : Scraper.Document) :
  Forall (λ t,
            Forall (λ r : row,
                      Forall (λ cell, cleanHeader cell ≠ []
                                      ∧ ∀ j, headerKey (cleanHeader cell) j
                                             = cleanHeader cell) r)
                   (Server.rows t))
         (tables (Server.responseData serviceOption now_locale
                    (Scraper.parseHTML awbNumber serviceOption now_iso doc))).
Proof.
  eapply Forall_impl; [apply responseData_rows_clean|].
  intros t (_ & _ & Hrows). eapply Forall_impl; [exact Hrows|].
  intros r [_ Hcells]. eapply Forall_impl; [exact Hcells|].
  intros cell. apply clean_cell_name.
Qed.

(** ** Source A in closed form *)

Section SourceA_closed_form.

Variable toLowerCase : jsstring → jsstring.

Local Abbreviation step := (DCSC.step toLowerCase).

(** With a header, every row that is not a section-start row and has as
    many cells as the header adds a record, and no other row does. *)
Lemma foldl_step_with_header post st sec :
  DCSC.currentSection st = Some sec →
  DCSC.currentHeaders st ≠ [] →
  Forall (λ r, DCSC.section_marker r = None) post →
  foldl step st post
  = {| DCSC.allSections := DCSC.allSections st;
       DCSC.currentSection :=
         Some {| DCSC.section_title := DCSC.section_title sec;
                 DCSC.table_id := DCSC.table_id sec;
                 DCSC.data :=
                   DCSC.data sec
                   ++ ((λ r, DCSC.fill_record 0 (DCSC.currentHeaders st) r ∅)
                       <$> filter (λ r : row,
                                     length r = length (DCSC.currentHeaders st))
                                  post) |};
       DCSC.currentHeaders := DCSC.currentHeaders st |}.
Proof.
  intros Hsec Hh Hpost. revert st sec Hsec Hh.
  induction Hpost as [|r post Hr _ IH]; intros st sec Hsec Hh; simpl.
  { rewrite app_nil_r. destruct st, sec; simpl in *. by subst. }
  assert (0 < length (DCSC.currentHeaders st))%nat as Hpos.
  { destruct (DCSC.currentHeaders st); [done | simpl; lia]. }
  rewrite filter_cons.
  destruct (decide (length r = length (DCSC.currentHeaders st))) as [Hlen|Hlen].
  - assert (step st r
            = {| DCSC.allSections := DCSC.allSections st;
                 DCSC.currentSection :=
                   Some {| DCSC.section_title := DCSC.section_title sec;
                           DCSC.table_id := DCSC.table_id sec;
                           DCSC.data :=
                             DCSC.data sec
                             ++ [DCSC.fill_record 0 (DCSC.currentHeaders st) r ∅] |};
                 DCSC.currentHeaders := DCSC.currentHeaders st |}) as ->.
    { unfold DCSC.step. rewrite Hr, Hsec.
      rewrite bool_decide_eq_false_2 by lia.
      rewrite (bool_decide_eq_false_2 (length (DCSC.currentHeaders st) = 0%nat))
        by lia.
      rewrite andb_false_r.
      rewrite !bool_decide_eq_true_2 by done. done. }
    erewrite IH; [|done|done]. simpl. by rewrite <- app_assoc.
  - assert (step st r = st) as ->; [|by apply IH].
    unfold DCSC.step. rewrite Hr, Hsec.
    case_bool_decide; [done|].
    rewrite (bool_decide_eq_false_2 (length (DCSC.currentHeaders st) = 0%nat))
      by lia.
    rewrite andb_false_r.
    rewrite (bool_decide_eq_false_2 (length r = _)) by done.
    by rewrite andb_false_r.
Qed.

(** Without a header, the rows up to the first header candidate are
    skipped. *)
Lemma foldl_step_no_header body st sec :
  DCSC.currentSection st = Some sec →
  DCSC.currentHeaders st = [] →
  DCSC.data sec = [] →
  Forall (λ r, DCSC.section_marker r = None) body →
  DCSC.currentSection (foldl step st body)
  = Some {| DCSC.section_title := DCSC.section_title sec;
            DCSC.table_id := DCSC.table_id sec;
            DCSC.data := records_of_body body |}.
Proof.
  intros Hsec Hh Hdata Hbody. revert st Hsec Hh.
  induction Hbody as [|r body Hr Hbody IH]; intros st Hsec Hh; simpl.
  { rewrite Hsec. f_equal. destruct sec; simpl in *. by subst. }
  destruct (DCSC.looksLikeHeader r) eqn:El.
  - assert (step st r
            = {| DCSC.allSections := DCSC.allSections st;
                 DCSC.currentSection := Some sec;
                 DCSC.currentHeaders := cleanHeader <$> r |}) as ->.
    { unfold DCSC.step. rewrite Hr, Hsec, Hh, El. simpl.
      apply looksLikeHeader_spec in El as [[Hlen _] _].
      by rewrite bool_decide_eq_false_2 by lia. }
    rewrite (foldl_step_with_header body _ sec); [|done| |done].
    + simpl. rewrite Hdata, length_fmap. done.
    + simpl. apply header_candidate_nonempty. by apply looksLikeHeader_spec.
  - assert (step st r = st) as ->; [|by apply IH].
    unfold DCSC.step. rewrite Hr, Hsec, Hh, El. simpl.
    by case_bool_decide.
Qed.

Lemma accumulated_closed_form event :
  Forall (λ r, DCSC.section_marker r = None) event.2 →
  accumulated toLowerCase event = section_of toLowerCase event.
Proof.
  intros Hbody. unfold accumulated.
  by rewrite (foldl_step_no_header _ _ (opened toLowerCase event.1)).
Qed.

Lemma scan_table_closed_form all rs :
  DCSC.scan_table toLowerCase all rs
  = all ++ filter (λ s, DCSC.data s ≠ [])
                  (section_of toLowerCase <$> section_starts rs).
Proof.
  rewrite scan_table_sections. f_equal. f_equal.
  destruct (split_at_markers_spec rs) as (_ & _ & H).
  apply Forall_fmap_ext. eapply Forall_impl; [exact H|].
  intros event [_ Hbody]. by apply accumulated_closed_form.
Qed.

Lemma slug_no_white_space b s :
  Forall (λ c, is_white_space c = false) (replace_ws_from (js "_") b s).
Proof.
  revert b. induction s as [|c s IH]; intros b; simpl; [constructor|].
  destruct (is_white_space c) eqn:E.
  - destruct b; simpl; [apply IH|]. constructor; [done | apply IH].
  - constructor; [done | apply IH].
Qed.

Lemma foldl_scan_table all (ts : list Server.RawTable) :
  foldl (λ all table, DCSC.scan_table toLowerCase all (Server.rows table)) all ts
  = all ++ mjoin ((λ table, DCSC.scan_table toLowerCase [] (Server.rows table))
                  <$> ts).
Proof.
  revert all. induction ts as [|t ts IH]; intros all; simpl.
  { by rewrite app_nil_r. }
  rewrite IH, (scan_table_sections toLowerCase all),
    (scan_table_sections toLowerCase []). simpl.
  by rewrite <- app_assoc.
Qed.

(** X9: the sections a table adds, in closed form.  Each section-start row
    opens a section titled by its trimmed cell; among the rows up to the
    next section-start row the first header candidate gives the header,
    the rows before it are skipped, and every row after it with as many
    cells as the header gives one record, in the order of the rows.  The
    sections with a record are added, in order. *)
Theorem sections_closed_form (all : list DCSC.SectionAcc) (rs : list row) :
  DCSC.scan_table toLowerCase all rs
  = all ++ filter (λ s, DCSC.data s ≠ [])
                  (section_of toLowerCase <$> section_starts rs).
Proof. apply scan_table_closed_form. Qed.

Lemma scan_table_provenance (rs : list row) :
  Forall (λ sec,
            DCSC.data sec ≠ []
            ∧ Forall (λ c, is_white_space c = false) (DCSC.table_id sec)
            ∧ ∃ cell before after,
                [cell] ∈ rs
                ∧ cell = before ++ js "DETAILS" ++ after
                ∧ DCSC.section_title sec = trim cell
                ∧ DCSC.table_id sec = replace_ws (js "_") (toLowerCase cell))
         (DCSC.scan_table toLowerCase [] rs).
Proof.
  rewrite scan_table_closed_form. simpl.
  apply Forall_forall. intros sec Hsec.
  apply list_elem_of_filter in Hsec as [Hdata Hsec].
  apply list_elem_of_fmap in Hsec as (event & -> & Hevent).
  split; [done|]. split; [apply slug_no_white_space|].
  assert (event.1 ∈ omap DCSC.section_marker rs) as Hcell.
  { rewrite <- section_starts_markers. by apply list_elem_of_fmap_2. }
  apply list_elem_of_omap in Hcell as (r & Hr & Hm).
  apply section_marker_spec in Hm as (-> & before & after & Hcell).
  by exists event.1, before, after.
Qed.

(** X10: every section a table adds holds a record, comes from a row of
    the table with the single cell containing "DETAILS", is titled by that
    cell trimmed, and has as id that cell in lower case with every run of
    white space turned into one underscore: an id without white space. *)
Theorem sections_come_from_markers (rs : list row) :
  Forall (λ sec,
            DCSC.data sec ≠ []
            ∧ Forall (λ c, is_white_space c = false) (DCSC.table_id sec)
            ∧ ∃ cell before after,
                [cell] ∈ rs
                ∧ cell = before ++ js "DETAILS" ++ after
                ∧ DCSC.section_title sec = trim cell
                ∧ DCSC.table_id sec = replace_ws (js "_") (toLowerCase cell))
         (DCSC.scan_table toLowerCase [] rs).
Proof. apply scan_table_provenance. Qed.

(** X14: the envelope of the section normalizer lists no empty table:
    every table has at least one record, [total_rows] counts its records,
    and its id holds no white space. *)
Theorem section_tables_never_empty (rawData : Envelope Server.RawTable) :
  Forall (λ t, (0 < DCSC.out_total_rows t)%nat
               ∧ DCSC.out_total_rows t = length (DCSC.out_data t)
               ∧ Forall (λ c, is_white_space c = false) (DCSC.out_table_id t))
         (tables (DCSC.parseDCSCTables toLowerCase rawData)).
Proof.
  simpl. rewrite foldl_scan_table. simpl.
  apply Forall_forall. intros t Ht.
  apply elem_of_lookup_imap in Ht as (i & sec & -> & Hi).
  apply list_elem_of_lookup_2, list_elem_of_join in Hi as (secs & Hsec & Hsecs).
  apply list_elem_of_fmap in Hsecs as (table & -> & _).
  pose proof (proj1 (Forall_forall _ _)
                (scan_table_provenance (Server.rows table)) sec Hsec)
    as (Hdata & Hid & _).
  simpl. split; [|done].
  destruct (DCSC.data sec); [done | simpl; lia].
Qed.

(** X13: sections never span tables: the sections of an envelope are the
    sections of its first table, then those of its second, and so on, each
    table scanned on its own. *)
Theorem sections_table_by_table (rawData : Envelope Server.RawTable) :
  (λ t, (DCSC.out_table_id t, DCSC.out_section_title t, DCSC.out_data t))
  <$> tables (DCSC.parseDCSCTables toLowerCase rawData)
  = (λ s, (DCSC.table_id s, DCSC.section_title s, DCSC.data s))
    <$> mjoin ((λ table, DCSC.scan_table toLowerCase [] (Server.rows table))
               <$> tables rawData).
Proof.
  simpl. rewrite foldl_scan_table. simpl.
  rewrite fmap_imap.
  by rewrite <- (imap_const (λ s : DCSC.SectionAcc,
                              (DCSC.table_id s, DCSC.section_title s, DCSC.data s))).
Qed.

End SourceA_closed_form.

(** ** The keys of the records, row by row *)

Lemma header_keys_derived (hrow : row) :
  header_keys (cleanHeader <$> hrow) = derived_keys hrow.
Proof.
  unfold header_keys, derived_keys. rewrite imap_fmap.
  apply imap_ext. intros j cell _. simpl. unfold headerKey, decimal.
  by destruct (cleanHeader cell).
Qed.

Lemma records_of_body_header pre hrow post :
  Forall (λ r, ¬ header_candidate r) pre → header_candidate hrow →
  records_of_body (pre ++ hrow :: post)
  = (λ r, DCSC.fill_record 0 (cleanHeader <$> hrow) r ∅)
    <$> filter (λ r : row, length r = length hrow) post.
Proof.
  intros Hpre Hh. induction Hpre as [|r pre Hr _ IH]; simpl.
  - apply looksLikeHeader_spec in Hh. by rewrite Hh.
  - apply looksLikeHeader_spec_false in Hr. by rewrite Hr.
Qed.

Lemma records_of_body_split body :
  records_of_body body ≠ [] →
  ∃ pre hrow post, body = pre ++ hrow :: post
                   ∧ Forall (λ r, ¬ header_candidate r) pre
                   ∧ header_candidate hrow.
Proof.
  induction body as [|r body IH]; simpl; [done|].
  destruct (DCSC.looksLikeHeader r) eqn:E.
  - intros _. exists [], r, body. apply looksLikeHeader_spec in E.
    by split; [|split; [constructor|]].
  - intros H. destruct (IH H) as (pre & hrow & post & -> & Hpre & Hh).
    exists (r :: pre), hrow, post. split; [done|]. split; [|done].
    constructor; [|done]. intros Hc. apply looksLikeHeader_spec in Hc. congruence.
Qed.

Lemma dcsc_record_key_set (hrow r : row) :
  let rec := DCSC.fill_record 0 (cleanHeader <$> hrow) r ∅ in
  (∀ key, key ∈ dom rec ↔ key ≠ js "__proto__" ∧ key ∈ derived_keys hrow)
  ∧ (NoDup (derived_keys hrow) → js "__proto__" ∉ derived_keys hrow →
     dom rec = list_to_set (derived_keys hrow) ∧ size rec = length hrow).
Proof.
  intros rec. unfold rec. rewrite dcsc_record_keys. split.
  - intros key. rewrite elem_of_list_to_set. unfold own_keys.
    by rewrite list_elem_of_filter, header_keys_derived.
  - intros Hnd Hproto. rewrite <- size_dom, dcsc_record_keys.
    rewrite own_keys_all by by rewrite header_keys_derived.
    rewrite header_keys_derived. split; [done|].
    rewrite size_list_to_set by done. unfold derived_keys.
    by rewrite length_imap.
Qed.

(** C4, as amended.  Source A: every section a table adds belongs to a
    section-start row of the table; its header row is the first header
    candidate [hrow] among the rows after that row, and its records are,
    in order, those of the later rows with as many cells as [hrow].  Each
    of these records has exactly the derived keys of [hrow], the cleaned
    cells with [Column <1-based index>] for an empty one (a key
    "__proto__" apart, which no record holds), and as many keys as [hrow]
    has cells when the derived keys are pairwise distinct and none is
    "__proto__".  Source B: the records of a table are, in order, those of
    the rows after the header row [hrow]; the record of a row has the
    non-empty cleaned names of [hrow], other than "__proto__", that stand
    over a cell of that row; these are all the names, as many as [hrow]
    has cells, when the row is at least as long as [hrow] and the names are
    non-empty, pairwise distinct and not "__proto__". *)
Theorem C4_record_keys (toLowerCase : jsstring → jsstring) :
  (∀ rs sec, sec ∈ DCSC.scan_table toLowerCase [] rs →
     ∃ event pre hrow post,
       event ∈ section_starts rs
       ∧ DCSC.section_title sec = trim event.1
       ∧ DCSC.table_id sec = replace_ws (js "_") (toLowerCase event.1)
       ∧ event.2 = pre ++ hrow :: post
       ∧ Forall (λ r, ¬ header_candidate r) pre
       ∧ header_candidate hrow
       ∧ let used := filter (λ r : row, length r = length hrow) post in
         length (DCSC.data sec) = length used
         ∧ ∀ (k : nat) r, used !! k = Some r →
             ∃ rec, DCSC.data sec !! k = Some rec
               ∧ (∀ key, key ∈ dom rec
                         ↔ key ≠ js "__proto__" ∧ key ∈ derived_keys hrow)
               ∧ (NoDup (derived_keys hrow) →
                  js "__proto__" ∉ derived_keys hrow →
                  dom rec = list_to_set (derived_keys hrow)
                  ∧ size rec = length hrow))
  ∧ (∀ table t, GMR.parseTable table = Returned t →
     let rows := Server.rows table in
     let h := GMR.headerRowIndex rows in
     ∃ hrow,
       rows !! h = Some hrow
       ∧ length (GMR.data t) = (length rows - (h + 1))%nat
       ∧ ∀ (k : nat) r, rows !! (h + 1 + k)%nat = Some r →
           ∃ rec, GMR.data t !! k = Some rec
             ∧ (∀ key, key ∈ dom rec
                       ↔ key ≠ [] ∧ key ≠ js "__proto__"
                         ∧ key ∈ take (length r) (cleanHeader <$> hrow))
             ∧ (NoDup (cleanHeader <$> hrow) →
                Forall (λ name, name ≠ [] ∧ name ≠ js "__proto__")
                       (cleanHeader <$> hrow) →
                (length hrow ≤ length r)%nat →
                dom rec = list_to_set (cleanHeader <$> hrow)
                ∧ size rec = length hrow)).
Proof.
  split.
  - intros rs sec Hsec.
    rewrite scan_table_closed_form in Hsec. simpl in Hsec.
    apply list_elem_of_filter in Hsec as [Hdata Hsec].
    apply list_elem_of_fmap in Hsec as (event & -> & Hevent).
    simpl in Hdata.
    destruct (records_of_body_split _ Hdata) as (pre & hrow & post & Hb & Hpre & Hh).
    exists event, pre, hrow, post.
    split; [done|]. split; [done|]. split; [done|]. split; [done|].
    split; [done|]. split; [done|].
    simpl. rewrite Hb, records_of_body_header by done.
    split; [by rewrite length_fmap|].
    intros k r Hr. eexists. split; [by rewrite list_lookup_fmap, Hr|].
    apply dcsc_record_key_set.
  - intros table t. unfold GMR.parseTable.
    destruct (Server.rows table !! _) as [hrow|] eqn:Eh; [|done].
    intros Ht. simplify_eq. exists hrow. split; [done|]. simpl.
    unfold GMR.cleanData. split; [by rewrite length_fmap, length_drop|].
    intros k r Hr. eexists.
    split; [by rewrite list_lookup_fmap, lookup_drop, Hr|].
    split; [apply gmr_record_keys|].
    intros Hnd Hne Hlen. rewrite <- (length_fmap cleanHeader hrow).
    apply gmr_record_full; [done | done | by rewrite length_fmap].
Qed.

(** ** The values of the records of source A *)

Lemma lookup_obj_set_ne (key value : jsstring) (obj : record) (k : jsstring) :
  key ≠ k → obj_set key value obj !! k = obj !! k.
Proof.
  intros H. unfold obj_set. case_decide; [done|]. by rewrite lookup_insert_ne.
Qed.

Lemma dcsc_fill_record_fresh (j : nat) (headers : list jsstring) (r : row)
    (obj : record) (key : jsstring) :
  (∀ (k : nat) h, headers !! k = Some h → headerKey h (j + k) ≠ key) →
  DCSC.fill_record j headers r obj !! key = obj !! key.
Proof.
  revert j obj. induction headers as [|h hs IH]; intros j obj Hfresh; simpl;
    [done|].
  rewrite IH.
  - apply lookup_obj_set_ne. specialize (Hfresh 0%nat h eq_refl).
    by rewrite Nat.add_0_r in Hfresh.
  - intros k h' Hk. specialize (Hfresh (S k) h' Hk).
    by replace (S j + k)%nat with (j + S k)%nat by lia.
Qed.

Lemma dcsc_fill_record_last (j : nat) (headers : list jsstring) (r : row)
    (obj : record) (k : nat) (h : jsstring) :
  headers !! k = Some h →
  headerKey h (j + k) ≠ js "__proto__" →
  (∀ (k' : nat) h', (k < k')%nat → headers !! k' = Some h' →
     headerKey h' (j + k') ≠ headerKey h (j + k)) →
  DCSC.fill_record j headers r obj !! headerKey h (j + k)
  = Some (default [] (r !! (j + k)%nat)).
Proof.
  revert j obj k.
  induction headers as [|h0 hs IH]; intros j obj k Hk Hproto Hlast; [done|].
  destruct k as [|k]; simpl in Hk.
  - simplify_eq. simpl. rewrite dcsc_fill_record_fresh.
    + rewrite Nat.add_0_r in *. unfold obj_set.
      rewrite decide_False by done. apply lookup_insert_eq.
    + intros k' h' Hk'. specialize (Hlast (S k') h').
      replace (S j + k')%nat with (j + S k')%nat by lia.
      apply Hlast; [lia | done].
  - simpl. replace (j + S k)%nat with (S j + k)%nat in * by lia.
    apply IH; [done | done |].
    intros k' h' Hlt Hk'. specialize (Hlast (S k') h').
    replace (j + S k')%nat with (S j + k')%nat in Hlast by lia.
    apply Hlast; [lia | done].
Qed.

(** X11: a record of source A holds, under the key of a header position,
    the cell of its row at that position (the empty text when the row has
    no such cell), provided that no later position has the same key and
    the key is not "__proto__": of two positions with one key the later
    one gives the value. *)
Theorem dcsc_record_values (headers : list jsstring) (r : row) (k : nat)
    (key : jsstring)
    (Hkey : header_keys headers !! k = Some key)
    (Hproto : key ≠ js "__proto__")
    (Hlast : ∀ k' : nat, (k < k')%nat → header_keys headers !! k' ≠ Some key) :
  DCSC.fill_record 0 headers r ∅ !! key = Some (default [] (r !! k)).
Proof.
  unfold header_keys in *. rewrite list_lookup_imap in Hkey.
  destruct (headers !! k) as [h|] eqn:Hk; [|done]. simpl in Hkey.
  simplify_eq.
  apply (dcsc_fill_record_last 0 headers r ∅ k h); [done | done |].
  intros k' h' Hlt Hk' E. apply (Hlast k' Hlt).
  rewrite list_lookup_imap, Hk'. simpl. by f_equal.
Qed.

Lemma dcsc_record_values_witness :
  header_keys [js "Date"; js "Status"] !! 1%nat = Some (js "Status")
  ∧ DCSC.fill_record 0 [js "Date"; js "Status"] arrival_row ∅ !! js "Status"
    = Some (js "Arrived").
Proof.
  split; [reflexivity|].
  apply (dcsc_record_values [js "Date"; js "Status"] arrival_row 1 (js "Status")).
  - reflexivity.
  - discriminate.
  - intros [|[|k']] Hlt; [lia | lia | discriminate].
Defined.

(** ** The whole run *)

Lemma parseGMRTables_returns (awbNumber serviceOption now_iso now_locale : jsstring)
    (doc : Scraper.Document) :
  ∃ e, GMR.parseGMRTables
         (Server.responseData serviceOption now_locale
            (Scraper.parseHTML awbNumber serviceOption now_iso doc))
       = Returned e.
Proof.
  unfold GMR.parseGMRTables.
  destruct (omapM_returns GMR.parseTable
              (tables (Server.responseData serviceOption now_locale
                         (Scraper.parseHTML awbNumber serviceOption now_iso doc))))
    as [ts Hts].
  { eapply Forall_impl; [apply responseData_rows, extract_tables_ok|].
    intros t. apply parseTable_returns. }
  rewrite Hts. by eexists.
Qed.

Lemma parseTableData_source_1 toLowerCase rawData :
  service_code rawData = js "1" →
  parseTableData toLowerCase rawData
  = Returned (Sections (DCSC.parseDCSCTables toLowerCase rawData)).
Proof. intros H. unfold parseTableData. rewrite H. reflexivity. Qed.

Lemma parseTableData_source_2 toLowerCase rawData :
  service_code rawData = js "2" →
  parseTableData toLowerCase rawData
  = obind (GMR.parseGMRTables rawData) (λ e, Returned (Records e)).
Proof. intros H. unfold parseTableData. rewrite H. reflexivity. Qed.

Lemma parseGMRTables_keeps_source rawData e :
  GMR.parseGMRTables rawData = Returned e →
  service_code e = service_code rawData
  ∧ service_name e = service_name rawData.
Proof.
  unfold GMR.parseGMRTables. destruct (omapM _ _); simpl; [|done].
  intros ?. by simplify_eq.
Qed.

(** X12: on what the server builds from an extraction the UI never throws
    and never falls through: for the service "gmr" it returns the records
    of the header inference normalizer, for every other service name the
    sections of the section normalizer, and in both cases the envelope
    names its service. *)
Theorem run_always_normalizes (toLowerCase : jsstring → jsstring)
    (service awbNumber now_iso now_locale : jsstring) (doc : Scraper.Document) :
  if decide (service = js "gmr")
  then ∃ e, scrape_and_parse toLowerCase service awbNumber now_iso now_locale doc
            = Returned (Records e)
            ∧ service_code e = js "2"
            ∧ service_name e = Some (js "GMR ARGO - Cargo Tracking")
  else ∃ e, scrape_and_parse toLowerCase service awbNumber now_iso now_locale doc
            = Returned (Sections e)
            ∧ service_code e = js "1"
            ∧ service_name e = Some (js "DCSC - Delhi Cargo Service Centre").
Proof.
  unfold scrape_and_parse, Server.serviceOption. case_decide as Hs.
  - destruct (parseGMRTables_returns awbNumber (js "2") now_iso now_locale doc)
      as [e He].
    exists e. rewrite parseTableData_source_2, He by reflexivity.
    split; [done|]. apply parseGMRTables_keeps_source in He as [-> ->].
    by split.
  - eexists. rewrite parseTableData_source_1 by reflexivity. by repeat split.
Qed.

(** ** The values of the records of source B *)

Lemma gmr_fill_record_unwritten (i : nat) (headers : list jsstring) (r : row)
    (obj : record) (key : jsstring) :
  (∀ k : nat, headers !! k = Some key → r !! (i + k)%nat = None) →
  GMR.fill_record i headers r obj !! key = obj !! key.
Proof.
  revert i obj. induction headers as [|h hs IH]; intros i obj Hun; simpl; [done|].
  rewrite IH.
  - destruct (truthy h) eqn:Eh; [|done].
    destruct (r !! i) as [v|] eqn:Ev; [|done].
    unfold headerKey. rewrite Eh. apply lookup_obj_set_ne. intros ->.
    specialize (Hun 0%nat eq_refl). rewrite Nat.add_0_r in Hun. congruence.
  - intros k Hk. specialize (Hun (S k) Hk).
    by replace (S i + k)%nat with (i + S k)%nat by lia.
Qed.

Lemma gmr_fill_record_last (i : nat) (headers : list jsstring) (r : row)
    (obj : record) (k : nat) (header v : jsstring) :
  headers !! k = Some header → header ≠ [] → header ≠ js "__proto__" →
  r !! (i + k)%nat = Some v →
  (∀ k' : nat, (k < k')%nat → headers !! k' = Some header →
     r !! (i + k')%nat = None) →
  GMR.fill_record i headers r obj !! header = Some v.
Proof.
  revert i obj k.
  induction headers as [|h hs IH]; intros i obj k Hk Hne Hproto Hv Hlast; [done|].
  destruct k as [|k]; simpl in Hk.
  - simplify_eq. simpl. rewrite gmr_fill_record_unwritten.
    + rewrite Nat.add_0_r in Hv. apply truthy_nonempty in Hne.
      rewrite Hne, Hv. unfold headerKey, obj_set. rewrite Hne.
      rewrite decide_False by done. apply lookup_insert_eq.
    + intros k' Hk'. replace (S i + k')%nat with (i + S k')%nat by lia.
      apply Hlast; [lia | done].
  - simpl. apply (IH (S i) _ k); [done | done | done | |].
    + by replace (S i + k)%nat with (i + S k)%nat by lia.
    + intros k' Hlt Hk'. replace (S i + k')%nat with (i + S k')%nat by lia.
      apply Hlast; [lia | done].
Qed.

(** X15: a record of source B holds, under a non-empty header name other
    than "__proto__", the cell of its row at a position of that name,
    provided that the name stands over no later cell of the row: of two
    cells under one name the later one gives the value. *)
Theorem gmr_record_values (headers : list jsstring) (r : row) (k : nat)
    (header v : jsstring)
    (Hheader : headers !! k = Some header)
    (Hne : header ≠ [])
    (Hproto : header ≠ js "__proto__")
    (Hv : r !! k = Some v)
    (Hlast : ∀ k' : nat, (k < k' < length r)%nat → headers !! k' ≠ Some header) :
  GMR.fill_record 0 headers r ∅ !! header = Some v.
Proof.
  apply (gmr_fill_record_last 0 headers r ∅ k); [done | done | done | done |].
  intros k' Hlt Hk'. simpl. apply lookup_ge_None.
  destruct (decide (k' < length r)%nat) as [Hin|]; [|lia].
  exfalso. by apply (Hlast k').
Qed.

Lemma gmr_record_values_witness :
  GMR.fill_record 0 [js "A"; js "A"] [js "1"; js "2"] ∅ !! js "A" = Some (js "2").
Proof.
  apply (gmr_record_values [js "A"; js "A"] [js "1"; js "2"] 1 (js "A") (js "2")).
  - reflexivity.
  - discriminate.
  - discriminate.
  - reflexivity.
  - intros k' [Hlt Hlen]. simpl in Hlen. lia.
Defined.
